(** * The Glimmer element builder and its block trackers

    A shallow embedding of
    [packages/@glimmer/runtime/lib/vm/element-builder.ts]: the stack machine
    [NewElementBuilder] and the tracker classes [SimpleBlockTracker],
    [RemoteBlockTracker], [UpdatableBlockTracker] and [BlockListTracker].

    Objects with identity (tree nodes, trackers, bounds handed out by the
    tree operations) are named by identifiers.  The collaborators the builder
    talks to (the tree operations, the environment, the destroyables, the
    attribute operations) are not modelled beyond their interface: every call
    made on one of them is appended to a log, in program order. *)

From Stdlib Require Import List String ZArith Lia Bool.
Import ListNotations.
Local Open Scope string_scope.
Local Open Scope list_scope.

(** ** Tree nodes, bounds and destroyables *)

(** A [Simple.Node]: either a node the caller handed to the builder, or the
    node built by the [k]-th allocation of the tree operations. *)
Inductive node : Type :=
| Given (id : nat)
| Created (k : nat).

(** References to objects implementing [Bounds]. *)
Inductive Bounds : Type :=
| BTracker (id : nat)                 (* a tracker object *)
| BSingle (parent : node) (n : node)  (* single(parent, node) *)
| BHTML (k : nat)                     (* what insertHTMLBefore returned *)
| BObject (id : nat).                 (* any other Bounds object *)

(** References to objects implementing [Destroyable]. *)
Inductive Destroyable : Type :=
| DTracker (id : nat)
| DObject (id : nat).

(** The [first] field holds a [First] wrapper around a node or a bounds
    object; the [last] field a [Last] wrapper or a bounds object. *)
Inductive boundary : Type :=
| OfNode (n : node)
| OfBounds (b : Bounds).

Inductive ElementOperations : Type :=
| SimpleElementOperations
| CustomOperations (id : nat).

(** ** Calls on the collaborators *)

(** A call [d.destroy()] on a registered destroyable is logged as
    [Destroy d] whatever object [d] is, a tracker included: what the callee
    does in turn is not part of the caller's method. *)
Inductive event : Type :=
| CreateElement (tag : string) (parent : node) (result : node)
| CreateTextNode (text : string) (result : node)
| CreateComment (text : string) (result : node)
| InsertBefore (parent : node) (n : node) (reference : option node)
| InsertHTMLBefore (parent : node) (reference : option node) (html : string)
                   (result : Bounds)
| Clear (bounds : Bounds) (result : option node)
| DidDestroy (d : Destroyable)        (* env.didDestroy(d) *)
| Destroy (d : Destroyable)           (* d.destroy() *)
| AddStaticAttribute (ops : ElementOperations) (element : node)
                     (name value : string)
| AddStaticAttributeNS (ops : ElementOperations) (element : node)
                       (namespace name value : string)
| AddDynamicAttribute (ops : ElementOperations) (element : node)
                      (name : string) (reference : nat) (isTrusting : bool)
| AddDynamicAttributeNS (ops : ElementOperations) (element : node)
                        (namespace name : string) (reference : nat)
                        (isTrusting : bool).

(** The world outside the builder, as the builder sees it: the calls made
    so far, the next free object identifier, and the answer of the tree to
    a request to remove a range of nodes (the tree itself is not modelled). *)
Record World : Type := mkWorld {
  log : list event;
  fresh : nat;
  successor : list event -> Bounds -> option node
}.

Definition emit (e : event) (w : World) : World :=
  mkWorld (log w ++ [e]) (fresh w) (successor w).

Definition alloc (w : World) : nat * World :=
  (fresh w, mkWorld (log w) (S (fresh w)) (successor w)).

(** Modelled from the spec: [clear] of [../bounds], which removes the node
    range of a bounds object from the tree and returns the sibling that
    followed the range.  The removal is a logged call; the sibling is the
    answer of the tree after the calls made so far. *)
Definition clear (b : Bounds) (w : World) : option node * World :=
  let r := successor w (log w) b in
  (r, emit (Clear b r) w).

(** ** Fallible results *)

Inductive result (A : Type) : Type :=
| Ok (a : A)
| Err (msg : string).
Arguments Ok {A} a.
Arguments Err {A} msg.

(** ** Trackers *)

Module Tracker.

Inductive kind : Type := Simple | Remote | Updatable.

(** [SimpleBlockTracker] and its two subclasses, which add no field.  [id]
    is the identity of the object. *)
Record SimpleBlockTracker : Type := mkSimple {
  variant : kind;
  id : nat;
  parent : node;
  first : option boundary;
  last : option boundary;
  destroyables : option (list Destroyable);
  nesting : Z
}.

Record BlockListTracker : Type := mkBlockList {
  bl_id : nat;
  bl_parent : node;
  boundList : list nat
}.

Inductive t : Type :=
| OfSimple (s : SimpleBlockTracker)
| OfBlockList (l : BlockListTracker).

Definition create (k : kind) (i : nat) (p : node) : SimpleBlockTracker :=
  mkSimple k i p None None None 0.

Definition tracker_id (tr : t) : nat :=
  match tr with
  | OfSimple s => id s
  | OfBlockList l => bl_id l
  end.

Definition parentElement (tr : t) : node :=
  match tr with
  | OfSimple s => parent s
  | OfBlockList l => bl_parent l
  end.

Definition set_first (f : option boundary) (s : SimpleBlockTracker) :=
  mkSimple (variant s) (id s) (parent s) f (last s) (destroyables s) (nesting s).
Definition set_last (l : option boundary) (s : SimpleBlockTracker) :=
  mkSimple (variant s) (id s) (parent s) (first s) l (destroyables s) (nesting s).
Definition set_destroyables (d : option (list Destroyable))
    (s : SimpleBlockTracker) :=
  mkSimple (variant s) (id s) (parent s) (first s) (last s) d (nesting s).
Definition set_nesting (n : Z) (s : SimpleBlockTracker) :=
  mkSimple (variant s) (id s) (parent s) (first s) (last s) (destroyables s) n.

(** *** SimpleBlockTracker *)

Definition simple_newNode (n : node) (s : SimpleBlockTracker)
  : SimpleBlockTracker :=
  if negb (nesting s =? 0)%Z then s
  else
    let s1 := match first s with
              | None => set_first (Some (OfNode n)) s
              | Some _ => s
              end in
    set_last (Some (OfNode n)) s1.

Definition simple_newBounds (b : Bounds) (s : SimpleBlockTracker)
  : SimpleBlockTracker :=
  if negb (nesting s =? 0)%Z then s
  else
    let s1 := match first s with
              | None => set_first (Some (OfBounds b)) s
              | Some _ => s
              end in
    set_last (Some (OfBounds b)) s1.

Definition simple_openElement (element : node) (s : SimpleBlockTracker)
  : SimpleBlockTracker :=
  let s1 := simple_newNode element s in
  set_nesting (nesting s1 + 1)%Z s1.

Definition simple_closeElement (s : SimpleBlockTracker) : SimpleBlockTracker :=
  set_nesting (nesting s - 1)%Z s.

Definition simple_newDestroyable (d : Destroyable) (s : SimpleBlockTracker)
  : SimpleBlockTracker :=
  let ds := match destroyables s with
            | Some ds => ds
            | None => []
            end in
  set_destroyables (Some (ds ++ [d])) s.

(** The loop [for (i = 0; i < destroyables.length; i++)], run when the
    list is present and not empty. *)
Definition each_destroyable (call : Destroyable -> event)
    (ds : option (list Destroyable)) (env : World) : World :=
  match ds with
  | Some (d :: ds') => fold_left (fun e x => emit (call x) e) (d :: ds') env
  | _ => env
  end.

Definition simple_destroy (s : SimpleBlockTracker) (env : World) : World :=
  each_destroyable Destroy (destroyables s) env.

(** *** RemoteBlockTracker *)

Definition remote_destroy (s : SimpleBlockTracker) (env : World) : World :=
  let env1 := simple_destroy s env in
  snd (clear (BTracker (id s)) env1).

(** *** UpdatableBlockTracker *)

Definition reset (s : SimpleBlockTracker) (env : World)
  : option node * SimpleBlockTracker * World :=
  let env1 := each_destroyable DidDestroy (destroyables s) env in
  let (nextSibling, env2) := clear (BTracker (id s)) env1 in
  let s1 := set_first None s in
  let s2 := set_last None s1 in
  let s3 := set_destroyables None s2 in
  let s4 := set_nesting 0 s3 in
  (nextSibling, s4, env2).

(** *** BlockListTracker *)

Definition blocklist_destroy (l : BlockListTracker) (env : World) : World :=
  fold_left (fun e x => emit (Destroy (DObject x)) e) (boundList l) env.

(** *** The dispatch through the [Tracker] interface *)

(** Modelled from the spec: [assert] of [@glimmer/util], which throws with
    the given message on a false test; on a true test the method goes on,
    here to return the tracker [after]. *)
Definition assert (test : bool) (msg : string) (after : t) : result t :=
  if test then Ok after else Err msg.

Definition openElement (element : node) (tr : t) : result t :=
  match tr with
  | OfSimple s => Ok (OfSimple (simple_openElement element s))
  | OfBlockList l =>
      assert false "Cannot openElement directly inside a block list"
        (OfBlockList l)
  end.

Definition closeElement (tr : t) : result t :=
  match tr with
  | OfSimple s => Ok (OfSimple (simple_closeElement s))
  | OfBlockList l =>
      assert false "Cannot closeElement directly inside a block list"
        (OfBlockList l)
  end.

Definition newNode (n : node) (tr : t) : result t :=
  match tr with
  | OfSimple s => Ok (OfSimple (simple_newNode n s))
  | OfBlockList l =>
      assert false "Cannot create a new node directly inside a block list"
        (OfBlockList l)
  end.

Definition newBounds (b : Bounds) (tr : t) : t :=
  match tr with
  | OfSimple s => OfSimple (simple_newBounds b s)
  | OfBlockList l => OfBlockList l
  end.

Definition newDestroyable (d : Destroyable) (tr : t) : t :=
  match tr with
  | OfSimple s => OfSimple (simple_newDestroyable d s)
  | OfBlockList l => OfBlockList l
  end.

Definition destroy (tr : t) (env : World) : World :=
  match tr with
  | OfSimple s =>
      match variant s with
      | Remote => remote_destroy s env
      | Simple | Updatable => simple_destroy s env
      end
  | OfBlockList l => blocklist_destroy l env
  end.

End Tracker.

(** ** Values handed to the dynamic content resolver *)

(** An [Opaque] value, by the shape the probes of [../dom/normalize] see:
    a tree node, a safe string (with what its [toHTML] returns), a string,
    an empty value ([null], [undefined], or an object without [toString]),
    or anything else (with what [String(value)] returns).  One shape
    answers two probes: an object that has [toHTML] but no [toString] is
    both a safe string and empty. *)
Inductive Opaque : Type :=
| ONode (n : node)
| OSafeString (html : string)
| OString (s : string)
| OEmpty
| OOther (str : string)
| OSafeEmpty (html : string).

(** Modelled from the spec: the probes [isNode], [isSafeString], [isString]
    and [isEmpty] of [../dom/normalize], which tell the shapes above apart. *)
Definition isNode (v : Opaque) : option node :=
  match v with ONode n => Some n | _ => None end.
Definition isSafeString (v : Opaque) : option string :=
  match v with
  | OSafeString h => Some h
  | OSafeEmpty h => Some h
  | _ => None
  end.
Definition isString (v : Opaque) : option string :=
  match v with OString s => Some s | _ => None end.
Definition isEmpty (v : Opaque) : bool :=
  match v with
  | OEmpty => true
  | OSafeEmpty _ => true
  | _ => false
  end.

(** [String(value)] for a value that is none of the above shapes. *)
Definition String_of (v : Opaque) : string :=
  match v with
  | OOther str => str
  | OString s => s
  | _ => ""
  end.

(** The content classes of [./content/*], by the arguments of their
    constructors. *)
Inductive DynamicContent : Type :=
| DynamicNodeContent (bounds : Bounds) (n : node)
| DynamicTrustedHTMLContent (bounds : Bounds) (normalized : string)
| DynamicHTMLContent (bounds : Bounds) (value : Opaque)
| DynamicTextContent (bounds : Bounds) (normalized : string).

Inductive DynamicContentWrapper : Type :=
| Wrapper (content : DynamicContent).

(** ** The element builder *)

(** Modelled from the spec: [Stack] of [@glimmer/util], an array-backed
    stack whose [current] is the top or [null], and whose [pop] on an empty
    stack returns [null]. The top of the stack is the head of the list. *)
Definition Stack (A : Type) : Type := list A.
Definition current {A} (s : Stack A) : option A := hd_error s.
Definition push {A} (x : A) (s : Stack A) : Stack A := x :: s.
Definition pop {A} (s : Stack A) : option A * Stack A := (hd_error s, tl s).

Record Builder : Type := mkBuilder {
  env : World;
  element : node;
  nextSibling : option node;
  constructing : option node;
  operations : option ElementOperations;
  elementStack : Stack node;
  nextSiblingStack : Stack (option node);
  blockStack : Stack Tracker.t;
  defaultOperations : ElementOperations
}.

Definition set_env (w : World) (b : Builder) : Builder :=
  mkBuilder w (element b) (nextSibling b) (constructing b) (operations b)
    (elementStack b) (nextSiblingStack b) (blockStack b) (defaultOperations b).
Definition set_element (e : node) (b : Builder) : Builder :=
  mkBuilder (env b) e (nextSibling b) (constructing b) (operations b)
    (elementStack b) (nextSiblingStack b) (blockStack b) (defaultOperations b).
Definition set_nextSibling (n : option node) (b : Builder) : Builder :=
  mkBuilder (env b) (element b) n (constructing b) (operations b)
    (elementStack b) (nextSiblingStack b) (blockStack b) (defaultOperations b).
Definition set_constructing (c : option node) (b : Builder) : Builder :=
  mkBuilder (env b) (element b) (nextSibling b) c (operations b)
    (elementStack b) (nextSiblingStack b) (blockStack b) (defaultOperations b).
Definition set_operations (o : option ElementOperations) (b : Builder)
  : Builder :=
  mkBuilder (env b) (element b) (nextSibling b) (constructing b) o
    (elementStack b) (nextSiblingStack b) (blockStack b) (defaultOperations b).
Definition set_elementStack (s : Stack node) (b : Builder) : Builder :=
  mkBuilder (env b) (element b) (nextSibling b) (constructing b) (operations b)
    s (nextSiblingStack b) (blockStack b) (defaultOperations b).
Definition set_nextSiblingStack (s : Stack (option node)) (b : Builder)
  : Builder :=
  mkBuilder (env b) (element b) (nextSibling b) (constructing b) (operations b)
    (elementStack b) s (blockStack b) (defaultOperations b).
Definition set_blockStack (s : Stack Tracker.t) (b : Builder) : Builder :=
  mkBuilder (env b) (element b) (nextSibling b) (constructing b) (operations b)
    (elementStack b) (nextSiblingStack b) s (defaultOperations b).

(** *** Builder methods: state passing with exceptions.  A thrown error
    keeps the mutations made before it. *)

Definition M (A : Type) : Type := Builder -> result A * Builder.

Definition ret {A} (a : A) : M A := fun b => (Ok a, b).

Definition bind {A B} (m : M A) (k : A -> M B) : M B :=
  fun b =>
    match m b with
    | (Ok a, b') => k a b'
    | (Err msg, b') => (Err msg, b')
    end.

Notation "x <- m ;; k" := (bind m (fun x => k))
  (at level 61, m at next level, right associativity).
Notation "m ;;; k" := (bind m (fun _ => k))
  (at level 61, right associativity).

Definition gets {A} (f : Builder -> A) : M A := fun b => (Ok (f b), b).
Definition modify (f : Builder -> Builder) : M unit := fun b => (Ok tt, f b).
Definition throw {A} (msg : string) : M A := fun b => (Err msg, b).
Definition lift {A} (r : result A) : M A := fun b => (r, b).

(** Modelled from the spec: [expect] of [@glimmer/util], which throws with
    the given message on an absent value and returns a present one. *)
Definition expect {A} (v : option A) (msg : string) : M A :=
  match v with
  | Some a => ret a
  | None => throw msg
  end.

(** Calls on the collaborators. *)
Definition call (e : event) : M unit := modify (fun b => set_env (emit e (env b)) b).

Definition dom_create (mk : node -> event) : M node :=
  fun b =>
    let (k, w) := alloc (env b) in
    (Ok (Created k), set_env (emit (mk (Created k)) w) b).

Definition dom_insertBefore (p n : node) (reference : option node) : M unit :=
  call (InsertBefore p n reference).

Definition dom_insertHTMLBefore (p : node) (reference : option node)
    (html : string) : M Bounds :=
  fun b =>
    let (k, w) := alloc (env b) in
    (Ok (BHTML k), set_env (emit (InsertHTMLBefore p reference html (BHTML k)) w) b).

Definition new_object : M nat :=
  fun b => let (k, w) := alloc (env b) in (Ok k, set_env w b).

Definition only_while_constructing (method : string) : string :=
  method ++ " should only be called while constructing an element".

Definition expectConstructing (method : string) : M node :=
  c <- gets constructing ;;
  expect c (only_while_constructing method).

Definition expectOperations (method : string) : M ElementOperations :=
  o <- gets operations ;;
  expect o (only_while_constructing method).

Definition block : M Tracker.t :=
  cur <- gets (fun b => current (blockStack b)) ;;
  expect cur "Expected a current block tracker".

(** The tracker returned by [block()] is the object on top of the block
    stack; a method that mutates it replaces the top. *)
Definition store_block (tr : Tracker.t) : M unit :=
  modify (fun b => set_blockStack (tr :: tl (blockStack b)) b).

Definition popElement : M (option node) :=
  topElement <- (fun b => let (x, s) := pop (elementStack b) in
                          (Ok x, set_elementStack s b)) ;;
  modify (fun b => set_nextSiblingStack (snd (pop (nextSiblingStack b))) b) ;;;
  cur <- gets (fun b => current (elementStack b)) ;;
  e <- expect cur "can't pop past the last element" ;;
  modify (set_element e) ;;;
  modify (fun b => set_nextSibling
                     (match current (nextSiblingStack b) with
                      | Some n => n
                      | None => None
                      end) b) ;;;
  ret topElement.

Definition pushBlockTracker (tracker : Tracker.t) (isRemote : bool)
  : M Tracker.t :=
  cur <- gets (fun b => current (blockStack b)) ;;
  match cur with
  | Some c =>
      let c1 := Tracker.newDestroyable (DTracker (Tracker.tracker_id tracker)) c in
      let c2 := if negb isRemote
                then Tracker.newBounds (BTracker (Tracker.tracker_id tracker)) c1
                else c1 in
      store_block c2
  | None => ret tt
  end ;;;
  modify (fun b => set_blockStack (push tracker (blockStack b)) b) ;;;
  ret tracker.

Definition pushSimpleBlock : M Tracker.t :=
  i <- new_object ;;
  e <- gets element ;;
  let tracker := Tracker.OfSimple (Tracker.create Tracker.Simple i e) in
  pushBlockTracker tracker false ;;;
  ret tracker.

Definition pushUpdatableBlock : M Tracker.t :=
  i <- new_object ;;
  e <- gets element ;;
  let tracker := Tracker.OfSimple (Tracker.create Tracker.Updatable i e) in
  pushBlockTracker tracker false ;;;
  ret tracker.

Definition pushBlockList (list : list nat) : M Tracker.t :=
  i <- new_object ;;
  e <- gets element ;;
  let tracker := Tracker.OfBlockList (Tracker.mkBlockList i e list) in
  cur <- gets (fun b => current (blockStack b)) ;;
  match cur with
  | Some c =>
      let c1 := Tracker.newDestroyable (DTracker i) c in
      let c2 := Tracker.newBounds (BTracker i) c1 in
      store_block c2
  | None => ret tt
  end ;;;
  modify (fun b => set_blockStack (push tracker (blockStack b)) b) ;;;
  ret tracker.

Definition __openElement (tag : string) : M node :=
  e <- gets element ;;
  dom_create (CreateElement tag e).

Definition openElement (tag : string) (_operations : option ElementOperations)
  : M node :=
  d <- gets defaultOperations ;;
  let operations := match _operations with
                    | None => d
                    | Some o => o
                    end in
  element <- __openElement tag ;;
  modify (set_constructing (Some element)) ;;;
  modify (set_operations (Some operations)) ;;;
  ret element.

Definition __flushElement (parent constructing : node) : M unit :=
  ns <- gets nextSibling ;;
  dom_insertBefore parent constructing ns.

Definition pushElement (element : node) (nextSibling : option node) : M unit :=
  modify (set_element element) ;;;
  modify (fun b => set_elementStack (push element (elementStack b)) b) ;;;
  modify (set_nextSibling nextSibling) ;;;
  modify (fun b => set_nextSiblingStack (push nextSibling (nextSiblingStack b)) b).

Definition didAddDestroyable (d : Destroyable) : M unit :=
  tr <- block ;;
  store_block (Tracker.newDestroyable d tr).

Definition didAppendBounds (bounds : Bounds) : M Bounds :=
  tr <- block ;;
  store_block (Tracker.newBounds bounds tr) ;;;
  ret bounds.

Definition didAppendNode (n : node) : M node :=
  tr <- block ;;
  tr' <- lift (Tracker.newNode n tr) ;;
  store_block tr' ;;;
  ret n.

Definition didOpenElement (element : node) : M node :=
  tr <- block ;;
  tr' <- lift (Tracker.openElement element tr) ;;
  store_block tr' ;;;
  ret element.

Definition willCloseElement : M unit :=
  tr <- block ;;
  tr' <- lift (Tracker.closeElement tr) ;;
  store_block tr'.

Definition flushElement : M unit :=
  parent <- gets element ;;
  c <- gets constructing ;;
  element <- expect c
    "flushElement should only be called when constructing an element" ;;
  __flushElement parent element ;;;
  modify (set_constructing None) ;;;
  modify (set_operations None) ;;;
  pushElement element None ;;;
  didOpenElement element ;;;
  ret tt.

Definition pushRemoteElement (element : node) (nextSibling : option node)
  : M unit :=
  pushElement element nextSibling ;;;
  i <- new_object ;;
  let tracker := Tracker.OfSimple (Tracker.create Tracker.Remote i element) in
  pushBlockTracker tracker true ;;;
  ret tt.

Definition __appendText (text : string) : M node :=
  element <- gets element ;;
  nextSibling <- gets nextSibling ;;
  n <- dom_create (CreateTextNode text) ;;
  dom_insertBefore element n nextSibling ;;;
  ret n.

Definition appendText (s : string) : M node :=
  n <- __appendText s ;;
  didAppendNode n.

Definition __appendNode (n : node) : M node :=
  e <- gets element ;;
  ns <- gets nextSibling ;;
  dom_insertBefore e n ns ;;;
  ret n.

Definition appendNode (n : node) : M node :=
  n' <- __appendNode n ;;
  didAppendNode n'.

Definition __appendHTML (html : string) : M Bounds :=
  e <- gets element ;;
  ns <- gets nextSibling ;;
  dom_insertHTMLBefore e ns html.

Definition appendHTML (html : string) : M Bounds :=
  bounds <- __appendHTML html ;;
  didAppendBounds bounds.

Definition __appendComment (s : string) : M node :=
  element <- gets element ;;
  nextSibling <- gets nextSibling ;;
  n <- dom_create (CreateComment s) ;;
  dom_insertBefore element n nextSibling ;;;
  ret n.

Definition appendComment (s : string) : M node :=
  n <- __appendComment s ;;
  didAppendNode n.

Definition single (parent n : node) : Bounds := BSingle parent n.

Definition __appendTrustingDynamicContent (value : Opaque) : M DynamicContent :=
  match isNode value with
  | Some v =>
      n <- appendNode v ;;
      e <- gets element ;;
      ret (DynamicNodeContent (single e n) n)
  | None =>
      let normalized :=
        if isEmpty value then ""
        else match isSafeString value with
             | Some html => html
             | None =>
                 match isString value with
                 | Some s => s
                 | None => String_of value
                 end
             end in
      bounds <- appendHTML normalized ;;
      ret (DynamicTrustedHTMLContent bounds normalized)
  end.

Definition appendTrustingDynamicContent (value : Opaque)
  : M DynamicContentWrapper :=
  c <- __appendTrustingDynamicContent value ;;
  ret (Wrapper c).

Definition __appendCautiousDynamicContent (value : Opaque) : M DynamicContent :=
  match isNode value with
  | Some v =>
      n <- appendNode v ;;
      e <- gets element ;;
      ret (DynamicNodeContent (single e n) n)
  | None =>
      match isSafeString value with
      | Some html =>
          let normalized := html in
          bounds <- appendHTML normalized ;;
          ret (DynamicHTMLContent bounds value)
      | None =>
          let normalized :=
            if isEmpty value then ""
            else match isString value with
                 | Some s => s
                 | None => String_of value
                 end in
          textNode <- appendText normalized ;;
          e <- gets element ;;
          let bounds := single e textNode in
          ret (DynamicTextContent bounds normalized)
      end
  end.

Definition appendCautiousDynamicContent (value : Opaque)
  : M DynamicContentWrapper :=
  c <- __appendCautiousDynamicContent value ;;
  ret (Wrapper c).

Definition setStaticAttribute (name value : string) : M unit :=
  ops <- expectOperations "setStaticAttribute" ;;
  e <- expectConstructing "setStaticAttribute" ;;
  call (AddStaticAttribute ops e name value).

Definition setStaticAttributeNS (namespace name value : string) : M unit :=
  ops <- expectOperations "setStaticAttributeNS" ;;
  e <- expectConstructing "setStaticAttributeNS" ;;
  call (AddStaticAttributeNS ops e namespace name value).

Definition setDynamicAttribute (name : string) (reference : nat)
    (isTrusting : bool) : M unit :=
  ops <- expectOperations "setDynamicAttribute" ;;
  e <- expectConstructing "setDynamicAttribute" ;;
  call (AddDynamicAttribute ops e name reference isTrusting).

Definition setDynamicAttributeNS (namespace name : string) (reference : nat)
    (isTrusting : bool) : M unit :=
  ops <- expectOperations "setDynamicAttributeNS" ;;
  e <- expectConstructing "setDynamicAttributeNS" ;;
  call (AddDynamicAttributeNS ops e namespace name reference isTrusting).

Definition closeElement : M unit :=
  willCloseElement ;;;
  popElement ;;;
  ret tt.

(** [tracker.finalize(stack)], run on the builder [stack]. *)
Definition finalize (tracker : Tracker.t) : M unit :=
  match tracker with
  | Tracker.OfSimple s =>
      match Tracker.first s with
      | None => appendComment "" ;;; ret tt
      | Some _ => ret tt
      end
  | Tracker.OfBlockList _ => ret tt
  end.

Definition popBlock : M Tracker.t :=
  tr <- block ;;
  finalize tr ;;;
  top <- (fun b => let (x, s) := pop (blockStack b) in
                   (Ok x, set_blockStack s b)) ;;
  expect top "Expected popBlock to return a block".

Definition popRemoteElement : M unit :=
  popBlock ;;;
  popElement ;;;
  ret tt.

(** The constructor: the field initialisers, then its body. *)
Definition NewElementBuilder (env : World) (parentNode : node)
    (sibling : option node) : Builder :=
  let b0 := mkBuilder env parentNode sibling None None [] [] []
              SimpleElementOperations in
  snd ((pushSimpleBlock ;;;
        modify (fun b => set_elementStack (push (element b) (elementStack b)) b) ;;;
        modify (fun b => set_nextSiblingStack
                           (push (nextSibling b) (nextSiblingStack b)) b)) b0).

Definition forInitialRender (env : World) (parentNode : node)
    (sibling : option node) : Builder :=
  NewElementBuilder env parentNode sibling.

Definition resume (env : World) (tracker : Tracker.t)
    (sibling : option node) : Builder :=
  let parentNode := Tracker.parentElement tracker in
  let stack := NewElementBuilder env parentNode sibling in
  snd (pushBlockTracker tracker false stack).

(** *** Sequences of calls on a builder *)

Inductive operation : Type :=
| PopElement
| PushSimpleBlock
| PushUpdatableBlock
| PushBlockList (list : list nat)
| PopBlock
| OpenElement (tag : string) (_operations : option ElementOperations)
| FlushElement
| PushRemoteElement (element : node) (nextSibling : option node)
| PopRemoteElement
| DidAddDestroyable (d : Destroyable)
| DidAppendBounds (bounds : Bounds)
| DidAppendNode (n : node)
| DidOpenElement (element : node)
| WillCloseElement
| AppendText (s : string)
| AppendNode (n : node)
| AppendHTML (html : string)
| AppendTrustingDynamicContent (value : Opaque)
| AppendCautiousDynamicContent (value : Opaque)
| AppendComment (s : string)
| SetStaticAttribute (name value : string)
| SetStaticAttributeNS (namespace name value : string)
| SetDynamicAttribute (name : string) (reference : nat) (isTrusting : bool)
| SetDynamicAttributeNS (namespace name : string) (reference : nat)
                        (isTrusting : bool)
| CloseElement.

Definition discard {A} (m : M A) : M unit := m ;;; ret tt.

Definition perform (o : operation) : M unit :=
  match o with
  | PopElement => discard popElement
  | PushSimpleBlock => discard pushSimpleBlock
  | PushUpdatableBlock => discard pushUpdatableBlock
  | PushBlockList l => discard (pushBlockList l)
  | PopBlock => discard popBlock
  | OpenElement tag ops => discard (openElement tag ops)
  | FlushElement => flushElement
  | PushRemoteElement e ns => pushRemoteElement e ns
  | PopRemoteElement => popRemoteElement
  | DidAddDestroyable d => didAddDestroyable d
  | DidAppendBounds bounds => discard (didAppendBounds bounds)
  | DidAppendNode n => discard (didAppendNode n)
  | DidOpenElement e => discard (didOpenElement e)
  | WillCloseElement => willCloseElement
  | AppendText s => discard (appendText s)
  | AppendNode n => discard (appendNode n)
  | AppendHTML html => discard (appendHTML html)
  | AppendTrustingDynamicContent v => discard (appendTrustingDynamicContent v)
  | AppendCautiousDynamicContent v => discard (appendCautiousDynamicContent v)
  | AppendComment s => discard (appendComment s)
  | SetStaticAttribute n v => setStaticAttribute n v
  | SetStaticAttributeNS ns n v => setStaticAttributeNS ns n v
  | SetDynamicAttribute n r t => setDynamicAttribute n r t
  | SetDynamicAttributeNS ns n r t => setDynamicAttributeNS ns n r t
  | CloseElement => closeElement
  end.

(** A sequence of calls; the first error thrown ends it. *)
Fixpoint run (ops : list operation) : M unit :=
  match ops with
  | [] => ret tt
  | o :: rest => perform o ;;; run rest
  end.

(** ** Properties of logs and states used in the statements *)

Definition stacks_aligned (b : Builder) : Prop :=
  List.length (elementStack b) = List.length (nextSiblingStack b).

(** The calls made between two worlds. *)
Definition calls_since (before after : World) : list event :=
  skipn (List.length (log before)) (log after).

(** [e1] is called before [e2] in a log: some occurrence of [e2] has an
    occurrence of [e1] ahead of it. *)
Definition called_before (e1 e2 : event) (l : list event) : Prop :=
  exists l1 l2 l3, l = l1 ++ e1 :: l2 ++ e2 :: l3.

Definition blank_world : World := mkWorld [] 0 (fun _ _ => None).

(** ** Sample states *)

Definition root : Builder := NewElementBuilder blank_world (Given 0) None.

(** [root] after [openElement("div")]. *)
Definition constructing_div : Builder := snd (openElement "div" None root).

(** [root] after [openElement("div"); flushElement()]. *)
Definition inside_div : Builder :=
  snd (run [OpenElement "div" None; FlushElement] root).

(** [root] after [pushBlockList(list)]. *)
Definition inside_list : Builder := snd (run [PushBlockList [5; 6]] root).

Definition nested_tracker : Tracker.SimpleBlockTracker :=
  Tracker.mkSimple Tracker.Simple 1 (Given 0)
    (Some (OfNode (Given 3))) (Some (OfNode (Given 3))) None 1.

Definition portal : Tracker.SimpleBlockTracker :=
  Tracker.mkSimple Tracker.Remote 1 (Given 9)
    (Some (OfNode (Given 3))) (Some (OfNode (Given 4)))
    (Some [DObject 7; DTracker 8]) 0.

Definition rendered : Tracker.SimpleBlockTracker :=
  Tracker.mkSimple Tracker.Updatable 1 (Given 0)
    (Some (OfNode (Given 3))) (Some (OfBounds (BTracker 8)))
    (Some [DObject 7; DTracker 8]) 0.

(** A tree that answers every removal with the node [Given 5]. *)
Definition answering_world : World := mkWorld [] 2 (fun _ _ => Some (Given 5)).

(** The destroyables a tracker holds, the absent list read as empty. *)
Definition registered (s : Tracker.SimpleBlockTracker) : list Destroyable :=
  match Tracker.destroyables s with
  | Some ds => ds
  | None => []
  end.

(** ** The nesting of calls *)

(** A tracker whose elements were closed no more often than opened, and
    that has seen a node if an element is open in it: [openElement] reports
    the element before it raises the depth. *)
Definition tidy (tr : Tracker.t) : Prop :=
  match tr with
  | Tracker.OfSimple s =>
      (0 <= Tracker.nesting s)%Z /\
      (Tracker.first s = None -> Tracker.nesting s = 0%Z)
  | Tracker.OfBlockList _ => True
  end.

Definition trackers_tidy (b : Builder) : Prop :=
  Forall tidy (blockStack b).

(** An element may be closed when the current block has one open. *)
Definition may_close (b : Builder) : Prop :=
  match current (blockStack b) with
  | Some (Tracker.OfSimple s) => (0 < Tracker.nesting s)%Z
  | _ => True
  end.

Definition permitted (o : operation) (b : Builder) : Prop :=
  match o with
  | CloseElement | WillCloseElement => may_close b
  | _ => True
  end.

(** A sequence of calls in which every element closed was opened in the
    block that is current when it is closed. *)
Fixpoint in_contract (ops : list operation) (b : Builder) : Prop :=
  match ops with
  | [] => True
  | o :: rest =>
      permitted o b /\
      match perform o b with
      | (Ok _, b') => in_contract rest b'
      | (Err _, _) => True
      end
  end.

(** A property of builders that a method keeps, whether it returns or
    throws. *)
Definition preserves {A} (P : Builder -> Prop) (m : M A) : Prop :=
  forall b, P b -> P (snd (m b)).

(** A property [P] that a method keeps when it returns, with [E] holding of
    the builder it leaves behind when it throws. *)
Definition keeps {A} (P E : Builder -> Prop) (m : M A) : Prop :=
  forall b, P b ->
            match fst (m b) with
            | Ok _ => P (snd (m b))
            | Err _ => E (snd (m b))
            end.

(** ** Well-nested content *)

(** Static content as a driver of the builder appends it: text, comments,
    and elements with static attributes and children. *)
#[warnings="-register-all"] Inductive content : Type :=
| Text (s : string)
| Comment (s : string)
| Element (tag : string) (attributes : list (string * string))
          (children : list content).

(** The calls that append a piece of content: an element is opened, given
    its attributes, flushed, filled with its children and closed. *)
Fixpoint calls_of (c : content) : list operation :=
  match c with
  | Text s => [AppendText s]
  | Comment s => [AppendComment s]
  | Element tag attributes children =>
      OpenElement tag None
        :: map (fun a => SetStaticAttribute (fst a) (snd a)) attributes
        ++ FlushElement :: flat_map calls_of children ++ [CloseElement]
  end.

(** The number of tree nodes a piece of content stands for. *)
Fixpoint nodes_of (c : content) : nat :=
  match c with
  | Text _ => 1
  | Comment _ => 1
  | Element _ _ children => S (list_sum (map nodes_of children))
  end.

(** The calls on the tree and on the attribute operations that a piece of
    content asks for, when it is appended under [parent] before [sibling]
    and [k] is the next free identifier: each node is created and then
    inserted, an element before its children, the children under the
    element and before no sibling. *)
Fixpoint tree_calls (ops : ElementOperations) (parent : node)
    (sibling : option node) (k : nat) (c : content) {struct c} : list event :=
  match c with
  | Text s =>
      [CreateTextNode s (Created k); InsertBefore parent (Created k) sibling]
  | Comment s =>
      [CreateComment s (Created k); InsertBefore parent (Created k) sibling]
  | Element tag attributes children =>
      CreateElement tag parent (Created k)
        :: map (fun a => AddStaticAttribute ops (Created k) (fst a) (snd a))
             attributes
        ++ InsertBefore parent (Created k) sibling
        :: (fix all (k' : nat) (cs : list content) : list event :=
              match cs with
              | [] => []
              | c' :: cs' =>
                  tree_calls ops (Created k) None k' c'
                    ++ all (k' + nodes_of c') cs'
              end) (S k) children
  end.

Definition tree_calls_all (ops : ElementOperations) (parent : node)
    (sibling : option node) : nat -> list content -> list event :=
  fix all (k : nat) (cs : list content) : list event :=
    match cs with
    | [] => []
    | c :: cs' =>
        tree_calls ops parent sibling k c ++ all (k + nodes_of c) cs'
    end.

(** The world after the calls [l] and with [k] as next free identifier. *)
Definition extend (w : World) (l : list event) (k : nat) : World :=
  mkWorld (log w ++ l) k (successor w).

(** A builder that constructs no element, whose cursor [(e, ns)] is the top
    frame and whose current block is the simple, remote or updatable
    tracker [t]. *)
Definition idle (w : World) (e : node) (ns : option node) (es : Stack node)
    (nss : Stack (option node)) (t : Tracker.SimpleBlockTracker)
    (rest : Stack Tracker.t) (d : ElementOperations) : Builder :=
  mkBuilder w e ns None None (e :: es) (ns :: nss)
    (Tracker.OfSimple t :: rest) d.

(** ** Conditions on builders used in the statements *)

(** The cursor is the top frame of the two stacks. *)
Definition cursor_on_top (b : Builder) : Prop :=
  current (elementStack b) = Some (element b) /\
  current (nextSiblingStack b) = Some (nextSibling b).

(** The two stacks are empty, which only a pop past the base frame leaves
    behind. *)
Definition frames_exhausted (b : Builder) : Prop :=
  elementStack b = [] /\ nextSiblingStack b = [].

(** The element under construction and its operations are set together. *)
Definition constructing_paired (b : Builder) : Prop :=
  constructing b = None <-> operations b = None.

(** A tracker has both bounds or neither. *)
Definition both_or_neither (tr : Tracker.t) : Prop :=
  match tr with
  | Tracker.OfSimple s => Tracker.first s = None <-> Tracker.last s = None
  | Tracker.OfBlockList _ => True
  end.

(** The calls that build the tree, as opposed to the calls that tear it
    down. *)
Definition builds (e : event) : Prop :=
  match e with
  | Clear _ _ | DidDestroy _ | Destroy _ => False
  | _ => True
  end.

(** The log of [b] is [l0] followed by building calls only. *)
Definition only_built_since (l0 : list event) (b : Builder) : Prop :=
  exists l, log (env b) = l0 ++ l /\ Forall builds l.

(** What every sequence of calls keeps of a builder while no call throws,
    and what is left of it when one does. *)
Definition steady (l0 : list event) (b : Builder) : Prop :=
  cursor_on_top b /\ stacks_aligned b /\ constructing_paired b /\
  Forall both_or_neither (blockStack b) /\ only_built_since l0 b.

Definition faulted (l0 : list event) (b : Builder) : Prop :=
  (cursor_on_top b \/ frames_exhausted b) /\ stacks_aligned b /\
  constructing_paired b /\
  Forall both_or_neither (blockStack b) /\ only_built_since l0 b.

(** * Properties *)

(** ** Logs *)

Lemma calls_since_app (w w' : World) (l : list event) :
  log w' = log w ++ l -> calls_since w w' = l.
Proof.
  intros H. unfold calls_since. rewrite H. clear H.
  generalize (log w) as l0.
  induction l0 as [|e rest IH]; simpl; auto.
Qed.

Ltac log_eq :=
  apply calls_since_app; unfold emit; simpl;
  rewrite <- ?app_assoc; reflexivity.

Lemma emit_all_log (f : Destroyable -> event) (ds : list Destroyable) :
  forall w,
    log (fold_left (fun e x => emit (f x) e) ds w) = log w ++ map f ds.
Proof.
  induction ds as [|d ds IH]; intros w; simpl.
  - now rewrite app_nil_r.
  - rewrite IH. simpl. now rewrite <- app_assoc.
Qed.

Lemma emit_all_frame (f : Destroyable -> event) (ds : list Destroyable) :
  forall w,
    fresh (fold_left (fun e x => emit (f x) e) ds w) = fresh w /\
    successor (fold_left (fun e x => emit (f x) e) ds w) = successor w.
Proof.
  induction ds as [|d ds IH]; intros w; simpl; auto.
  destruct (IH (emit (f d) w)) as [H1 H2]. now rewrite H1, H2.
Qed.

Lemma each_destroyable_log (f : Destroyable -> event)
    (s : Tracker.SimpleBlockTracker) (w : World) :
  log (Tracker.each_destroyable f (Tracker.destroyables s) w)
  = log w ++ map f (registered s).
Proof.
  unfold Tracker.each_destroyable, registered.
  destruct (Tracker.destroyables s) as [[|d ds]|].
  - simpl. now rewrite app_nil_r.
  - apply emit_all_log.
  - simpl. now rewrite app_nil_r.
Qed.

Lemma each_destroyable_frame (f : Destroyable -> event)
    (s : Tracker.SimpleBlockTracker) (w : World) :
  fresh (Tracker.each_destroyable f (Tracker.destroyables s) w) = fresh w /\
  successor (Tracker.each_destroyable f (Tracker.destroyables s) w)
  = successor w.
Proof.
  unfold Tracker.each_destroyable.
  destruct (Tracker.destroyables s) as [[|d ds]|]; auto.
  apply emit_all_frame.
Qed.

(** ** Trackers *)

Lemma newNode_nested (n : node) (s : Tracker.SimpleBlockTracker) :
  Tracker.nesting s <> 0%Z -> Tracker.simple_newNode n s = s.
Proof.
  intros H. unfold Tracker.simple_newNode.
  destruct (Z.eqb_spec (Tracker.nesting s) 0); [contradiction | reflexivity].
Qed.

Lemma newBounds_nested (b : Bounds) (s : Tracker.SimpleBlockTracker) :
  Tracker.nesting s <> 0%Z -> Tracker.simple_newBounds b s = s.
Proof.
  intros H. unfold Tracker.simple_newBounds.
  destruct (Z.eqb_spec (Tracker.nesting s) 0); [contradiction | reflexivity].
Qed.

Lemma newNode_top (n : node) (s : Tracker.SimpleBlockTracker) :
  Tracker.nesting s = 0%Z ->
  Tracker.simple_newNode n s
  = Tracker.set_last (Some (OfNode n))
      (match Tracker.first s with
       | None => Tracker.set_first (Some (OfNode n)) s
       | Some _ => s
       end).
Proof.
  intros H. unfold Tracker.simple_newNode. now rewrite H.
Qed.

Lemma newBounds_top (b : Bounds) (s : Tracker.SimpleBlockTracker) :
  Tracker.nesting s = 0%Z ->
  Tracker.simple_newBounds b s
  = Tracker.set_last (Some (OfBounds b))
      (match Tracker.first s with
       | None => Tracker.set_first (Some (OfBounds b)) s
       | Some _ => s
       end).
Proof.
  intros H. unfold Tracker.simple_newBounds. now rewrite H.
Qed.

(** Replacing the top of the block stack by itself changes nothing. *)
Lemma store_block_same (b : Builder) (tr : Tracker.t) (rest : list Tracker.t) :
  blockStack b = tr :: rest -> store_block tr b = (Ok tt, b).
Proof.
  intros H. unfold store_block, modify, set_blockStack.
  destruct b; simpl in *. now subst.
Qed.

Lemma block_current (b : Builder) (tr : Tracker.t) (rest : list Tracker.t) :
  blockStack b = tr :: rest -> block b = (Ok tr, b).
Proof.
  intros H. unfold block, bind, gets, current. now rewrite H.
Qed.

(** C1: in a simple, remote or updatable tracker, [newNode] and [newBounds]
    touch [first] and [last] only at nesting depth 0.  At a nonzero depth a
    reported node or bounds leaves the tracker as it is, also when it is
    reported through the builder ([didAppendNode], [didAppendBounds]) to the
    current block; at depth 0 the reported node or bounds becomes [last],
    and [first] when [first] was absent. *)
Theorem newNode_newBounds_only_at_depth_zero
    (s : Tracker.SimpleBlockTracker) (n : node) (bounds : Bounds) :
  (Tracker.nesting s <> 0%Z ->
     Tracker.first (Tracker.simple_newNode n s) = Tracker.first s /\
     Tracker.last (Tracker.simple_newNode n s) = Tracker.last s /\
     Tracker.first (Tracker.simple_newBounds bounds s) = Tracker.first s /\
     Tracker.last (Tracker.simple_newBounds bounds s) = Tracker.last s /\
     forall (b : Builder) (rest : list Tracker.t),
       blockStack b = Tracker.OfSimple s :: rest ->
       didAppendNode n b = (Ok n, b) /\
       didAppendBounds bounds b = (Ok bounds, b)) /\
  (Tracker.nesting s = 0%Z ->
     Tracker.last (Tracker.simple_newNode n s) = Some (OfNode n) /\
     Tracker.last (Tracker.simple_newBounds bounds s) = Some (OfBounds bounds) /\
     Tracker.first (Tracker.simple_newNode n s)
       = Some (match Tracker.first s with Some f => f | None => OfNode n end) /\
     Tracker.first (Tracker.simple_newBounds bounds s)
       = Some (match Tracker.first s with
               | Some f => f
               | None => OfBounds bounds
               end)).
Proof.
  split; intros H.
  - rewrite (newNode_nested n s H), (newBounds_nested bounds s H).
    repeat split; trivial.
    + unfold didAppendNode, bind. rewrite (block_current b _ _ H0).
      unfold lift, Tracker.newNode. rewrite (newNode_nested n s H).
      now rewrite (store_block_same b _ _ H0).
    + unfold didAppendBounds, bind. rewrite (block_current b _ _ H0).
      unfold Tracker.newBounds. rewrite (newBounds_nested bounds s H).
      now rewrite (store_block_same b _ _ H0).
  - rewrite (newNode_top n s H), (newBounds_top bounds s H).
    destruct (Tracker.first s) eqn:E; simpl; auto.
Qed.

Lemma newNode_newBounds_only_at_depth_zero_witness :
  Tracker.first (Tracker.simple_newNode (Given 4) nested_tracker)
    = Some (OfNode (Given 3)) /\
  Tracker.last (Tracker.simple_newBounds (BHTML 6) nested_tracker)
    = Some (OfNode (Given 3)).
Proof.
  destruct (newNode_newBounds_only_at_depth_zero nested_tracker (Given 4)
              (BHTML 6)) as [H _].
  destruct H as (H1 & _ & _ & H4 & _).
  - simpl. lia.
  - split; [exact H1 | exact H4].
Defined.

(** C3: [reset] of an updatable tracker hands every registered destroyable,
    in registration order, to [env.didDestroy], and only then has the node
    range cleared; it returns what [clear] returned, and leaves the tracker
    with no bounds, no destroyables and depth 0, as a tracker just made for
    the same parent. *)
Theorem reset_destroys_then_clears
    (s : Tracker.SimpleBlockTracker) (env : World) :
  Tracker.variant s = Tracker.Updatable ->
  let env1 := Tracker.each_destroyable DidDestroy (Tracker.destroyables s) env in
  let '(nextSibling, s', env') := Tracker.reset s env in
  log env1 = log env ++ map DidDestroy (registered s) /\
  nextSibling = fst (clear (BTracker (Tracker.id s)) env1) /\
  log env' = log env ++ map DidDestroy (registered s)
               ++ [Clear (BTracker (Tracker.id s)) nextSibling] /\
  Tracker.first s' = None /\
  Tracker.last s' = None /\
  Tracker.destroyables s' = None /\
  s' = Tracker.create Tracker.Updatable (Tracker.id s) (Tracker.parent s).
Proof.
  intros Hk. unfold Tracker.reset, clear. cbn zeta.
  split; [apply each_destroyable_log|].
  split; [reflexivity|].
  split.
  - unfold emit. cbn [log]. rewrite each_destroyable_log.
    now rewrite <- app_assoc.
  - repeat split. unfold Tracker.create, Tracker.set_nesting,
      Tracker.set_destroyables, Tracker.set_last, Tracker.set_first.
    cbn. now rewrite Hk.
Qed.

Lemma reset_destroys_then_clears_witness :
  Tracker.reset rendered answering_world
  = (Some (Given 5),
     Tracker.create Tracker.Updatable 1 (Given 0),
     mkWorld [DidDestroy (DObject 7); DidDestroy (DTracker 8);
              Clear (BTracker 1) (Some (Given 5))]
       2 (successor answering_world)).
Proof.
  pose proof (reset_destroys_then_clears rendered answering_world eq_refl) as H.
  cbv zeta in H.
  destruct (Tracker.reset rendered answering_world) as [[n s'] w'] eqn:E.
  destruct H as (_ & Hn & _ & _ & _ & _ & Hs).
  rewrite Hn, Hs. vm_compute in E. injection E as _ _ Hw.
  rewrite <- Hw. reflexivity.
Defined.

(** C5, as the claim has it, fails: a remote tracker with two destroyables
    calls their [destroy] first and has its node range cleared last. *)
Lemma remote_destroy_counterexample :
  calls_since blank_world (Tracker.destroy (Tracker.OfSimple portal) blank_world)
  = [Destroy (DObject 7); Destroy (DTracker 8); Clear (BTracker 1) None] /\
  ~ called_before (Clear (BTracker 1) None) (Destroy (DObject 7))
      (calls_since blank_world
         (Tracker.destroy (Tracker.OfSimple portal) blank_world)).
Proof.
  split; [reflexivity|].
  intros (l1 & l2 & l3 & H). vm_compute in H.
  destruct l1 as [|a [|b [|c l1]]]; simpl in H; try discriminate.
  - injection H as _ _ H. destruct l2; discriminate.
  - injection H as _ _ _ H. destruct l1; discriminate.
Qed.

(** C5, amended: [destroy] of a remote tracker first calls [destroy] on
    every registered destroyable, in registration order, and then has the
    tracked node range cleared. *)
Theorem remote_destroy_runs_destroyables_then_clears
    (s : Tracker.SimpleBlockTracker) (env : World) :
  Tracker.variant s = Tracker.Remote ->
  let env' := Tracker.destroy (Tracker.OfSimple s) env in
  let cleared :=
    Clear (BTracker (Tracker.id s))
      (successor env (log env ++ map Destroy (registered s))
         (BTracker (Tracker.id s))) in
  calls_since env env' = map Destroy (registered s) ++ [cleared] /\
  forall d, In d (registered s) ->
            called_before (Destroy d) cleared (calls_since env env').
Proof.
  intros Hk env' cleared.
  assert (Hlog : calls_since env env' = map Destroy (registered s) ++ [cleared]).
  { apply calls_since_app. subst env' cleared.
    unfold Tracker.destroy. rewrite Hk.
    unfold Tracker.remote_destroy, Tracker.simple_destroy, clear, emit.
    cbn [snd log].
    rewrite each_destroyable_log.
    destruct (each_destroyable_frame Destroy s env) as [_ Hs]. rewrite Hs.
    now rewrite <- app_assoc. }
  split; [exact Hlog|].
  intros d Hin. rewrite Hlog.
  destruct (in_split _ _ Hin) as (l1 & l2 & Hd).
  exists (map Destroy l1), (map Destroy l2), [].
  rewrite Hd, map_app. simpl. now rewrite <- app_assoc.
Qed.

Lemma remote_destroy_runs_destroyables_then_clears_witness :
  called_before (Destroy (DTracker 8)) (Clear (BTracker 1) None)
    (calls_since blank_world
       (Tracker.destroy (Tracker.OfSimple portal) blank_world)).
Proof.
  destruct (remote_destroy_runs_destroyables_then_clears portal blank_world
              eq_refl) as [_ H].
  apply (H (DTracker 8)). simpl. auto.
Defined.

(** C8: a block-list tracker rejects [openElement], [closeElement] and
    [newNode]; with a block-list tracker as the current block, the builder
    calls that reach them ([appendText], [appendComment], [appendNode],
    [flushElement] on an element under construction, [closeElement]) throw. *)
Theorem block_list_rejects_direct_content
    (l : Tracker.BlockListTracker) (n : node) (text : string) :
  Tracker.openElement n (Tracker.OfBlockList l)
    = Err "Cannot openElement directly inside a block list" /\
  Tracker.closeElement (Tracker.OfBlockList l)
    = Err "Cannot closeElement directly inside a block list" /\
  Tracker.newNode n (Tracker.OfBlockList l)
    = Err "Cannot create a new node directly inside a block list" /\
  forall (b : Builder),
    current (blockStack b) = Some (Tracker.OfBlockList l) ->
    fst (appendText text b)
      = Err "Cannot create a new node directly inside a block list" /\
    fst (appendComment text b)
      = Err "Cannot create a new node directly inside a block list" /\
    fst (appendNode n b)
      = Err "Cannot create a new node directly inside a block list" /\
    fst (closeElement b)
      = Err "Cannot closeElement directly inside a block list" /\
    (constructing b <> None ->
     fst (flushElement b)
       = Err "Cannot openElement directly inside a block list").
Proof.
  repeat split; trivial.
  - unfold appendText, __appendText, didAppendNode, block, dom_create,
      dom_insertBefore, call, bind, gets, modify, lift, expect, ret, throw.
    simpl. rewrite H. reflexivity.
  - unfold appendComment, __appendComment, didAppendNode, block, dom_create,
      dom_insertBefore, call, bind, gets, modify, lift, expect, ret, throw.
    simpl. rewrite H. reflexivity.
  - unfold appendNode, __appendNode, didAppendNode, block,
      dom_insertBefore, call, bind, gets, modify, lift, expect, ret, throw.
    simpl. rewrite H. reflexivity.
  - unfold closeElement, willCloseElement, block, bind, gets, lift, expect,
      ret, throw.
    rewrite H. reflexivity.
  - intros Hc. destruct (constructing b) as [c|] eqn:E; [|congruence].
    unfold flushElement, __flushElement, pushElement, didOpenElement, block,
      dom_insertBefore, call, bind, gets, modify, lift, expect, ret, throw.
    rewrite E. simpl. rewrite H. reflexivity.
Qed.

Lemma block_list_rejects_direct_content_witness :
  fst (appendText "x" inside_list)
  = Err "Cannot create a new node directly inside a block list".
Proof.
  destruct (block_list_rejects_direct_content
              (Tracker.mkBlockList 1 (Given 0) [5; 6]) (Given 4) "x")
    as (_ & _ & _ & H).
  destruct (H inside_list eq_refl) as [H1 _]. exact H1.
Defined.

(** C10: [newBounds] and [newDestroyable] of a block-list tracker discard
    their argument.  With a block-list tracker as the current block,
    [didAddDestroyable] and [didAppendBounds] leave the whole builder as it
    was; the tracker's [destroy] calls [destroy] on the members of its bound
    list and on nothing else, so a destroyable registered this way is not
    called unless the bound list holds it. *)
Theorem block_list_discards_bounds_and_destroyables
    (l : Tracker.BlockListTracker) (d : Destroyable) (bounds : Bounds) :
  Tracker.newDestroyable d (Tracker.OfBlockList l) = Tracker.OfBlockList l /\
  Tracker.newBounds bounds (Tracker.OfBlockList l) = Tracker.OfBlockList l /\
  (forall (b : Builder) (rest : list Tracker.t),
     blockStack b = Tracker.OfBlockList l :: rest ->
     didAddDestroyable d b = (Ok tt, b) /\
     didAppendBounds bounds b = (Ok bounds, b)) /\
  (forall env : World,
     calls_since env
       (Tracker.destroy (Tracker.newDestroyable d (Tracker.OfBlockList l)) env)
     = map (fun x => Destroy (DObject x)) (Tracker.boundList l) /\
     (~ In d (map DObject (Tracker.boundList l)) ->
      ~ In (Destroy d)
          (calls_since env
             (Tracker.destroy
                (Tracker.newDestroyable d (Tracker.OfBlockList l)) env)))).
Proof.
  split; [reflexivity|]. split; [reflexivity|]. split.
  - intros b rest H. split.
    + unfold didAddDestroyable, bind. rewrite (block_current b _ _ H).
      apply (store_block_same b _ _ H).
    + unfold didAppendBounds, bind. rewrite (block_current b _ _ H).
      cbn [Tracker.newBounds]. now rewrite (store_block_same b _ _ H).
  - intros env.
    assert (Hlog : calls_since env
       (Tracker.destroy (Tracker.newDestroyable d (Tracker.OfBlockList l)) env)
       = map (fun x => Destroy (DObject x)) (Tracker.boundList l)).
    { apply calls_since_app. cbn [Tracker.newDestroyable Tracker.destroy].
      unfold Tracker.blocklist_destroy.
      generalize (Tracker.boundList l) as xs. intro xs. revert env.
      induction xs as [|x xs IH]; intros env; simpl.
      - now rewrite app_nil_r.
      - rewrite IH. simpl. now rewrite <- app_assoc. }
    split; [exact Hlog|].
    intros Hnot Hin. rewrite Hlog in Hin. apply Hnot.
    apply in_map_iff in Hin. destruct Hin as (x & Hx & Hin).
    injection Hx as Hx. subst d. apply in_map. exact Hin.
Qed.

Lemma block_list_discards_bounds_and_destroyables_witness :
  didAddDestroyable (DObject 7) inside_list = (Ok tt, inside_list) /\
  ~ In (Destroy (DObject 7))
      (calls_since blank_world
         (Tracker.destroy
            (Tracker.newDestroyable (DObject 7)
               (Tracker.OfBlockList (Tracker.mkBlockList 1 (Given 0) [5; 6])))
            blank_world)).
Proof.
  destruct (block_list_discards_bounds_and_destroyables
              (Tracker.mkBlockList 1 (Given 0) [5; 6]) (DObject 7) (BHTML 9))
    as (_ & _ & Hb & Hd).
  split.
  - destruct (Hb inside_list _ eq_refl) as [H _]. exact H.
  - destruct (Hd blank_world) as [_ H]. apply H. simpl.
    intros [H1 | [H1 | []]]; discriminate.
Defined.

(** ** The element stack and the next-sibling stack *)

Section Preservation.
Variable P : Builder -> Prop.

Lemma preserves_ret {A} (a : A) : preserves P (ret a).
Proof. intros b H. exact H. Qed.

Lemma preserves_gets {A} (f : Builder -> A) : preserves P (gets f).
Proof. intros b H. exact H. Qed.

Lemma preserves_throw {A} (msg : string) : preserves P (@throw A msg).
Proof. intros b H. exact H. Qed.

Lemma preserves_lift {A} (r : result A) : preserves P (lift r).
Proof. intros b H. exact H. Qed.

Lemma preserves_expect {A} (v : option A) (msg : string) :
  preserves P (expect v msg).
Proof. destruct v; intros b H; exact H. Qed.

Lemma preserves_modify (f : Builder -> Builder) :
  (forall b, P b -> P (f b)) -> preserves P (modify f).
Proof. intros Hf b H. apply Hf, H. Qed.

Lemma preserves_bind {A B} (m : M A) (k : A -> M B) :
  preserves P m -> (forall a, preserves P (k a)) -> preserves P (bind m k).
Proof.
  intros Hm Hk b H. unfold bind.
  specialize (Hm b H). destruct (m b) as [[a|msg] b']; simpl in *.
  - apply Hk, Hm.
  - exact Hm.
Qed.
End Preservation.

Ltac frame :=
  repeat match goal with
    | |- preserves _ (bind _ _) => apply preserves_bind; [ | intro ]
    | |- preserves _ (ret _) => apply preserves_ret
    | |- preserves _ (gets _) => apply preserves_gets
    | |- preserves _ (expect _ _) => apply preserves_expect
    | |- preserves _ (lift _) => apply preserves_lift
    | |- preserves _ (throw _) => apply preserves_throw
    | |- preserves _ (modify _) =>
        apply preserves_modify; intros ? ?; assumption
    | |- preserves _ (match ?x with _ => _ end) => destruct x
    | |- _ => solve [auto with aligned]
    end.

Create HintDb aligned.

Lemma aligned_call (e : event) : preserves stacks_aligned (call e).
Proof. unfold call. frame. Qed.

Lemma aligned_dom_create (mk : node -> event) :
  preserves stacks_aligned (dom_create mk).
Proof. intros b H. exact H. Qed.

Lemma aligned_dom_insertHTMLBefore (p : node) (r : option node) (h : string) :
  preserves stacks_aligned (dom_insertHTMLBefore p r h).
Proof. intros b H. exact H. Qed.

Lemma aligned_new_object : preserves stacks_aligned new_object.
Proof. intros b H. exact H. Qed.

Lemma aligned_store_block (tr : Tracker.t) :
  preserves stacks_aligned (store_block tr).
Proof. unfold store_block. frame. Qed.

#[local] Hint Resolve aligned_call aligned_dom_create
  aligned_dom_insertHTMLBefore aligned_new_object aligned_store_block
  : aligned.

Lemma aligned_block : preserves stacks_aligned block.
Proof. unfold block. frame. Qed.

(** [pushElement] pushes on both stacks. *)
Lemma pushElement_stacks (e : node) (ns : option node) (b : Builder) :
  elementStack (snd (pushElement e ns b)) = e :: elementStack b /\
  nextSiblingStack (snd (pushElement e ns b)) = ns :: nextSiblingStack b.
Proof. split; reflexivity. Qed.

(** [popElement] pops both stacks, also when it throws. *)
Lemma popElement_stacks (b : Builder) :
  elementStack (snd (popElement b)) = tl (elementStack b) /\
  nextSiblingStack (snd (popElement b)) = tl (nextSiblingStack b).
Proof.
  unfold popElement, bind, modify, gets, expect, ret, throw, pop, current.
  simpl. destruct (elementStack b) as [|e [|e' es]]; simpl; auto.
Qed.

Lemma aligned_pushElement (e : node) (ns : option node) :
  preserves stacks_aligned (pushElement e ns).
Proof.
  intros b H. unfold stacks_aligned in *.
  destruct (pushElement_stacks e ns b) as [H1 H2]. rewrite H1, H2.
  simpl. now rewrite H.
Qed.

Lemma aligned_popElement : preserves stacks_aligned popElement.
Proof.
  intros b H. unfold stacks_aligned in *.
  destruct (popElement_stacks b) as [H1 H2]. rewrite H1, H2.
  destruct (elementStack b), (nextSiblingStack b); simpl in *; congruence.
Qed.

#[local] Hint Resolve aligned_block aligned_pushElement aligned_popElement
  : aligned.

Lemma aligned_pushBlockTracker (tr : Tracker.t) (isRemote : bool) :
  preserves stacks_aligned (pushBlockTracker tr isRemote).
Proof. unfold pushBlockTracker. frame. Qed.

#[local] Hint Resolve aligned_pushBlockTracker : aligned.

Lemma aligned_didAppendNode (n : node) :
  preserves stacks_aligned (didAppendNode n).
Proof. unfold didAppendNode. frame. Qed.

Lemma aligned_didAppendBounds (bounds : Bounds) :
  preserves stacks_aligned (didAppendBounds bounds).
Proof. unfold didAppendBounds. frame. Qed.

Lemma aligned_didOpenElement (e : node) :
  preserves stacks_aligned (didOpenElement e).
Proof. unfold didOpenElement. frame. Qed.

Lemma aligned_willCloseElement : preserves stacks_aligned willCloseElement.
Proof. unfold willCloseElement. frame. Qed.

#[local] Hint Resolve aligned_didAppendNode aligned_didAppendBounds
  aligned_didOpenElement aligned_willCloseElement : aligned.

Lemma aligned_appendText (s : string) : preserves stacks_aligned (appendText s).
Proof. unfold appendText, __appendText, dom_insertBefore. frame. Qed.

Lemma aligned_appendComment (s : string) :
  preserves stacks_aligned (appendComment s).
Proof. unfold appendComment, __appendComment, dom_insertBefore. frame. Qed.

Lemma aligned_appendNode (n : node) : preserves stacks_aligned (appendNode n).
Proof. unfold appendNode, __appendNode, dom_insertBefore. frame. Qed.

Lemma aligned_appendHTML (h : string) : preserves stacks_aligned (appendHTML h).
Proof. unfold appendHTML, __appendHTML. frame. Qed.

#[local] Hint Resolve aligned_appendText aligned_appendComment
  aligned_appendNode aligned_appendHTML : aligned.

Lemma aligned_popBlock : preserves stacks_aligned popBlock.
Proof.
  unfold popBlock, finalize. frame.
Qed.

#[local] Hint Resolve aligned_popBlock : aligned.

Lemma aligned_perform (o : operation) : preserves stacks_aligned (perform o).
Proof.
  destruct o; unfold perform, discard;
    unfold pushSimpleBlock, pushUpdatableBlock, pushBlockList, openElement,
      __openElement, flushElement, __flushElement, dom_insertBefore,
      pushRemoteElement, popRemoteElement, didAddDestroyable,
      appendTrustingDynamicContent, __appendTrustingDynamicContent,
      appendCautiousDynamicContent, __appendCautiousDynamicContent,
      setStaticAttribute, setStaticAttributeNS, setDynamicAttribute,
      setDynamicAttributeNS, expectOperations, expectConstructing,
      closeElement;
    frame.
Qed.

Lemma aligned_run (ops : list operation) : preserves stacks_aligned (run ops).
Proof.
  induction ops as [|o ops IH]; simpl.
  - apply preserves_ret.
  - apply preserves_bind; [apply aligned_perform | intros _; exact IH].
Qed.

Lemma aligned_constructor (env : World) (parentNode : node)
    (sibling : option node) :
  stacks_aligned (NewElementBuilder env parentNode sibling).
Proof. reflexivity. Qed.

(** C9: the element stack and the next-sibling stack of a builder have the
    same length after the constructor (and after [resume]) and after every
    sequence of calls, whether the last call returned or threw;
    [pushElement] pushes on both and [popElement] pops both. *)
Theorem element_and_sibling_stacks_aligned
    (env : World) (parentNode : node) (sibling : option node)
    (tracker : Tracker.t) (ops : list operation) :
  stacks_aligned (snd (run ops (NewElementBuilder env parentNode sibling))) /\
  stacks_aligned (snd (run ops (resume env tracker sibling))) /\
  (forall (b : Builder) (e : node) (ns : option node),
     elementStack (snd (pushElement e ns b)) = e :: elementStack b /\
     nextSiblingStack (snd (pushElement e ns b)) = ns :: nextSiblingStack b) /\
  (forall b : Builder,
     elementStack (snd (popElement b)) = tl (elementStack b) /\
     nextSiblingStack (snd (popElement b)) = tl (nextSiblingStack b)).
Proof.
  split; [|split; [|split]].
  - apply aligned_run, aligned_constructor.
  - apply aligned_run. unfold resume.
    apply aligned_pushBlockTracker, aligned_constructor.
  - intros b e ns. apply pushElement_stacks.
  - apply popElement_stacks.
Qed.

(** ** Opening an element *)

(** C6, as the claim has it, fails: [openElement("span")] on a builder that
    is constructing a [div] returns the new element and makes it the element
    under construction. *)
Lemma openElement_while_constructing_counterexample :
  constructing constructing_div = Some (Created 1) /\
  fst (openElement "span" None constructing_div) = Ok (Created 2) /\
  constructing (snd (openElement "span" None constructing_div))
  = Some (Created 2).
Proof. repeat split. Qed.

(** C6, amended: [openElement] never throws, whatever the builder is
    constructing.  It has one detached element created under the current
    parent, makes it the element under construction (in place of any
    earlier one, which is not inserted), records the operations given or
    the default ones, and leaves the cursor and the three stacks alone. *)
Theorem openElement_always_proceeds
    (tag : string) (ops : option ElementOperations) (b : Builder) :
  let created := Created (fresh (env b)) in
  let b' := snd (openElement tag ops b) in
  fst (openElement tag ops b) = Ok created /\
  constructing b' = Some created /\
  operations b'
  = Some (match ops with Some o => o | None => defaultOperations b end) /\
  calls_since (env b) (env b') = [CreateElement tag (element b) created] /\
  element b' = element b /\
  nextSibling b' = nextSibling b /\
  elementStack b' = elementStack b /\
  nextSiblingStack b' = nextSiblingStack b /\
  blockStack b' = blockStack b.
Proof.
  cbv zeta. repeat split.
  apply calls_since_app. reflexivity.
Qed.

(** ** Dynamic content *)

(** C2: a value that is a plain string [s] (no node, no safe string) is
    handed by [appendCautiousDynamicContent] to [createTextNode] as it is,
    and that one text node is inserted at the cursor; nothing is parsed.
    [appendTrustingDynamicContent] hands the same string to
    [insertHTMLBefore] and creates no text node.  When the current block is
    a simple, remote or updatable tracker [t], both calls return: the
    cautious content is a text content whose bounds are the single text
    node, of which [t] is told; the trusting content has the bounds that
    [insertHTMLBefore] returned, of which [t] is told. *)
Theorem plain_string_text_when_cautious_markup_when_trusting
    (v : Opaque) (s : string) (b : Builder) :
  isNode v = None -> isSafeString v = None -> isString v = Some s ->
  let k := fresh (env b) in
  let cautious := appendCautiousDynamicContent v b in
  let trusting := appendTrustingDynamicContent v b in
  calls_since (env b) (env (snd cautious))
  = [CreateTextNode s (Created k);
     InsertBefore (element b) (Created k) (nextSibling b)] /\
  calls_since (env b) (env (snd trusting))
  = [InsertHTMLBefore (element b) (nextSibling b) s (BHTML k)] /\
  forall (t : Tracker.SimpleBlockTracker) (rest : list Tracker.t),
    blockStack b = Tracker.OfSimple t :: rest ->
    fst cautious
    = Ok (Wrapper (DynamicTextContent (single (element b) (Created k)) s)) /\
    blockStack (snd cautious)
    = Tracker.OfSimple (Tracker.simple_newNode (Created k) t) :: rest /\
    fst trusting = Ok (Wrapper (DynamicTrustedHTMLContent (BHTML k) s)) /\
    blockStack (snd trusting)
    = Tracker.OfSimple (Tracker.simple_newBounds (BHTML k) t) :: rest.
Proof.
  intros Hn Hs Hstr.
  destruct v; try discriminate. injection Hstr as ->.
  cbv zeta.
  unfold appendCautiousDynamicContent, __appendCautiousDynamicContent,
    appendTrustingDynamicContent, __appendTrustingDynamicContent,
    appendText, __appendText, appendHTML, __appendHTML, didAppendNode,
    didAppendBounds, block, store_block, dom_create, dom_insertBefore,
    dom_insertHTMLBefore, call, bind, gets, modify, lift, expect, ret, throw,
    single, current.
  simpl.
  split; [|split].
  - destruct (blockStack b) as [|[t|l] rest]; simpl; log_eq.
  - destruct (blockStack b) as [|[t|l] rest]; simpl; log_eq.
  - intros t rest Hb. rewrite Hb. simpl. rewrite ?Hb. repeat split.
Qed.

Lemma plain_string_text_when_cautious_markup_when_trusting_witness :
  fst (appendCautiousDynamicContent (OString "<b>x</b>") root)
  = Ok (Wrapper (DynamicTextContent (BSingle (Given 0) (Created 1)) "<b>x</b>"))
  /\
  calls_since (env root)
    (env (snd (appendTrustingDynamicContent (OString "<b>x</b>") root)))
  = [InsertHTMLBefore (Given 0) None "<b>x</b>" (BHTML 1)].
Proof.
  destruct (plain_string_text_when_cautious_markup_when_trusting
              (OString "<b>x</b>") "<b>x</b>" root eq_refl eq_refl eq_refl)
    as (_ & H2 & H).
  destruct (H (Tracker.create Tracker.Simple 0 (Given 0)) [] eq_refl)
    as (H1 & _).
  split; [exact H1 | exact H2].
Defined.

(** ** Closing a block *)

(** [finalize] of the current block, by what the tracker holds. *)
Lemma finalize_of_the_current_block
    (t : Tracker.SimpleBlockTracker) (rest : list Tracker.t) (b : Builder) :
  blockStack b = Tracker.OfSimple t :: rest ->
  let comment := Created (fresh (env b)) in
  let b' := snd (finalize (Tracker.OfSimple t) b) in
  fst (finalize (Tracker.OfSimple t) b) = Ok tt /\
  (Tracker.first t = None -> Tracker.nesting t = 0%Z ->
     calls_since (env b) (env b')
     = [CreateComment "" comment;
        InsertBefore (element b) comment (nextSibling b)] /\
     blockStack b'
     = Tracker.OfSimple
         (Tracker.set_last (Some (OfNode comment))
            (Tracker.set_first (Some (OfNode comment)) t)) :: rest) /\
  (Tracker.first t <> None -> finalize (Tracker.OfSimple t) b = (Ok tt, b)).
Proof.
  intros Hb. cbv zeta. unfold finalize.
  destruct (Tracker.first t) as [f|] eqn:Hf.
  - split; [reflexivity|]. split; [discriminate | reflexivity].
  - unfold appendComment, __appendComment, didAppendNode, block, store_block,
      dom_create, dom_insertBefore, call, bind, gets, modify, lift, expect, ret.
    simpl. rewrite Hb. simpl. rewrite ?Hb.
    split; [reflexivity|]. split; [|congruence].
    intros _ Hn. split; [log_eq|].
    now rewrite (newNode_top _ _ Hn), Hf.
Qed.

(** The trackers stay tidy under calls that close no element the current
    block has not opened. *)
Lemma tidy_newNode (n : node) (tr tr' : Tracker.t) :
  tidy tr -> Tracker.newNode n tr = Ok tr' -> tidy tr'.
Proof.
  destruct tr as [s|l]; simpl; [|discriminate].
  intros [H0 H1] E. injection E as <-.
  destruct s as [v i p f la ds k]. unfold Tracker.simple_newNode.
  simpl in *.
  destruct (Z.eqb_spec k 0) as [Hz|Hz]; simpl; [|auto].
  destruct f; simpl; split; auto.
Qed.

Lemma tidy_newBounds (bounds : Bounds) (tr : Tracker.t) :
  tidy tr -> tidy (Tracker.newBounds bounds tr).
Proof.
  destruct tr as [s|l]; simpl; [|trivial].
  intros [H0 H1].
  destruct s as [v i p f la ds k]. unfold Tracker.simple_newBounds.
  simpl in *.
  destruct (Z.eqb_spec k 0) as [Hz|Hz]; simpl; [|auto].
  destruct f; simpl; split; auto.
Qed.

Lemma tidy_newDestroyable (d : Destroyable) (tr : Tracker.t) :
  tidy tr -> tidy (Tracker.newDestroyable d tr).
Proof. destruct tr as [s|l]; simpl; trivial. Qed.

Lemma tidy_openElement (e : node) (tr tr' : Tracker.t) :
  tidy tr -> Tracker.openElement e tr = Ok tr' -> tidy tr'.
Proof.
  destruct tr as [s|l]; simpl; [|discriminate].
  intros [H0 H1] E. injection E as <-.
  destruct s as [v i p f la ds k].
  unfold Tracker.simple_openElement, Tracker.simple_newNode.
  simpl in *.
  destruct (Z.eqb_spec k 0) as [Hz|Hz]; simpl.
  - destruct f; simpl; split; try lia; discriminate.
  - split; [lia|]. intros Hf. specialize (H1 Hf). contradiction.
Qed.

Lemma tidy_closeElement (tr tr' : Tracker.t) :
  tidy tr ->
  match tr with
  | Tracker.OfSimple s => (0 < Tracker.nesting s)%Z
  | Tracker.OfBlockList _ => True
  end ->
  Tracker.closeElement tr = Ok tr' -> tidy tr'.
Proof.
  destruct tr as [s|l]; simpl; [|discriminate].
  intros [H0 H1] Hp E. injection E as <-. simpl.
  split; [lia|]. intros Hf. specialize (H1 Hf). lia.
Qed.

Create HintDb tidy.

Ltac tidy_frame :=
  repeat match goal with
    | |- preserves _ (bind _ _) => apply preserves_bind; [ | intro ]
    | |- preserves _ (ret _) => apply preserves_ret
    | |- preserves _ (gets _) => apply preserves_gets
    | |- preserves _ (expect _ _) => apply preserves_expect
    | |- preserves _ (lift _) => apply preserves_lift
    | |- preserves _ (throw _) => apply preserves_throw
    | |- preserves _ (modify _) =>
        apply preserves_modify; intros ? ?; assumption
    | |- preserves _ (match ?x with _ => _ end) => destruct x
    | |- _ => solve [auto with tidy]
    end.

(** Opens the block stack of a builder known to be tidy. *)
Ltac open_stack b H :=
  unfold trackers_tidy in *;
  destruct b as [w e ns c o es nss bs d];
  cbn [blockStack] in H;
  destruct bs as [|cur rest];
  [ | apply Forall_cons_iff in H; destruct H as [Hcur Hrest] ].

Lemma tidy_call (e : event) : preserves trackers_tidy (call e).
Proof. intros b H. exact H. Qed.

Lemma tidy_dom_create (mk : node -> event) :
  preserves trackers_tidy (dom_create mk).
Proof. intros b H. exact H. Qed.

Lemma tidy_dom_insertHTMLBefore (p : node) (r : option node) (h : string) :
  preserves trackers_tidy (dom_insertHTMLBefore p r h).
Proof. intros b H. exact H. Qed.

Lemma tidy_new_object : preserves trackers_tidy new_object.
Proof. intros b H. exact H. Qed.

Lemma tidy_block : preserves trackers_tidy block.
Proof. unfold block. tidy_frame. Qed.

Lemma tidy_pushElement (e : node) (ns : option node) :
  preserves trackers_tidy (pushElement e ns).
Proof. intros b H. exact H. Qed.

Lemma tidy_popElement : preserves trackers_tidy popElement.
Proof.
  intros b H. unfold trackers_tidy in *.
  replace (blockStack (snd (popElement b))) with (blockStack b).
  - exact H.
  - unfold popElement, bind, modify, gets, expect, ret, throw, pop, current.
    simpl. destruct (elementStack b) as [|e0 [|e1 es]]; reflexivity.
Qed.

#[local] Hint Resolve tidy_call tidy_dom_create tidy_dom_insertHTMLBefore
  tidy_new_object tidy_block tidy_pushElement tidy_popElement : tidy.

Lemma tidy_pushBlockTracker (tr : Tracker.t) (isRemote : bool) :
  tidy tr -> preserves trackers_tidy (pushBlockTracker tr isRemote).
Proof.
  intros Htr b H. open_stack b H; simpl.
  - repeat constructor; assumption.
  - repeat constructor; try assumption.
    destruct isRemote; simpl; auto using tidy_newBounds, tidy_newDestroyable.
Qed.

Lemma tidy_pushBlockList (l : list nat) :
  preserves trackers_tidy (pushBlockList l).
Proof.
  intros b H. open_stack b H; simpl.
  - repeat constructor.
  - repeat constructor; simpl; try assumption; trivial.
    auto using tidy_newBounds, tidy_newDestroyable.
Qed.

Lemma tidy_didAddDestroyable (x : Destroyable) :
  preserves trackers_tidy (didAddDestroyable x).
Proof.
  intros b H. open_stack b H; simpl; [constructor|].
  constructor; auto using tidy_newDestroyable.
Qed.

Lemma tidy_didAppendBounds (x : Bounds) :
  preserves trackers_tidy (didAppendBounds x).
Proof.
  intros b H. open_stack b H; simpl; [constructor|].
  constructor; auto using tidy_newBounds.
Qed.

Lemma tidy_didAppendNode (n : node) :
  preserves trackers_tidy (didAppendNode n).
Proof.
  intros b H. open_stack b H; simpl; [constructor|].
  unfold didAppendNode, block, store_block, bind, modify, gets, lift, expect,
    ret, throw, current.
  simpl. destruct (Tracker.newNode n cur) as [tr'|msg] eqn:E; simpl.
  - constructor; eauto using tidy_newNode.
  - constructor; assumption.
Qed.

Lemma tidy_didOpenElement (n : node) :
  preserves trackers_tidy (didOpenElement n).
Proof.
  intros b H. open_stack b H; simpl; [constructor|].
  unfold didOpenElement, block, store_block, bind, modify, gets, lift, expect,
    ret, throw, current.
  simpl. destruct (Tracker.openElement n cur) as [tr'|msg] eqn:E; simpl.
  - constructor; eauto using tidy_openElement.
  - constructor; assumption.
Qed.

#[local] Hint Resolve tidy_pushBlockList tidy_didAddDestroyable
  tidy_didAppendBounds tidy_didAppendNode tidy_didOpenElement : tidy.

Lemma tidy_willCloseElement (b : Builder) :
  may_close b -> trackers_tidy b -> trackers_tidy (snd (willCloseElement b)).
Proof.
  intros Hp H. unfold may_close, current in Hp. open_stack b H; simpl.
  - constructor.
  - cbn [blockStack hd_error] in Hp.
    unfold willCloseElement, block, store_block, bind, modify, gets, lift,
      expect, ret, throw, current.
    simpl. destruct (Tracker.closeElement cur) as [tr'|msg] eqn:E; simpl.
    + constructor; [|assumption].
      apply (tidy_closeElement cur tr' Hcur); [|exact E].
      destruct cur; [exact Hp | trivial].
    + constructor; assumption.
Qed.

Lemma tidy_closeElement_call (b : Builder) :
  may_close b -> trackers_tidy b -> trackers_tidy (snd (closeElement b)).
Proof.
  intros Hp H. pose proof (tidy_willCloseElement b Hp H) as H1.
  unfold closeElement, bind.
  destruct (willCloseElement b) as [[u|msg] b1]; simpl in *; [|exact H1].
  pose proof (tidy_popElement b1 H1) as H2.
  destruct (popElement b1) as [[x|msg] b2]; simpl in *; exact H2.
Qed.

Lemma tidy_appendComment (s : string) :
  preserves trackers_tidy (appendComment s).
Proof. unfold appendComment, __appendComment, dom_insertBefore. tidy_frame. Qed.

#[local] Hint Resolve tidy_appendComment : tidy.
#[local] Hint Extern 1 (tidy _) => simpl; split; [lia | reflexivity] : tidy.

Lemma tidy_popBlock : preserves trackers_tidy popBlock.
Proof.
  unfold popBlock.
  apply preserves_bind; [apply tidy_block | intros tr].
  apply preserves_bind; [unfold finalize; tidy_frame | intros _].
  apply preserves_bind; [|intro; tidy_frame].
  intros b H. unfold pop. simpl. unfold trackers_tidy in *.
  destruct (blockStack b); simpl; [constructor | now inversion H].
Qed.

#[local] Hint Resolve tidy_popBlock : tidy.

Lemma tidy_perform (o : operation) (b : Builder) :
  permitted o b -> trackers_tidy b -> trackers_tidy (snd (perform o b)).
Proof.
  intros Hp H.
  assert (K : forall m : M unit,
             preserves trackers_tidy m -> trackers_tidy (snd (m b)))
    by (intros m Hm; apply Hm, H).
  pose proof tidy_pushBlockTracker as Hpush.
  destruct o; cbn [perform];
    try (apply K;
         unfold discard, pushSimpleBlock, pushUpdatableBlock, openElement,
           __openElement, flushElement, __flushElement,
           pushRemoteElement, popRemoteElement,
           appendTrustingDynamicContent, __appendTrustingDynamicContent,
           appendCautiousDynamicContent, __appendCautiousDynamicContent,
           appendText, __appendText, appendNode, __appendNode,
           appendHTML, __appendHTML, dom_insertBefore,
           setStaticAttribute, setStaticAttributeNS, setDynamicAttribute,
           setDynamicAttributeNS, expectOperations, expectConstructing;
         tidy_frame; fail).
  - apply tidy_willCloseElement; assumption.
  - apply tidy_closeElement_call; assumption.
Qed.

Lemma tidy_run (ops : list operation) :
  forall b, in_contract ops b -> trackers_tidy b ->
            trackers_tidy (snd (run ops b)).
Proof.
  induction ops as [|o ops IH]; intros b Hc H; simpl.
  - exact H.
  - destruct Hc as [Hp Hc]. pose proof (tidy_perform o b Hp H) as H1.
    unfold bind. destruct (perform o b) as [[u|msg] b1]; simpl in *.
    + apply IH; assumption.
    + exact H1.
Qed.

(** A new builder is tidy, and so is one resumed on a tidy tracker, such as
    the tracker that [reset] leaves. *)
Lemma tidy_constructor (world : World) (parentNode : node)
    (sibling : option node) :
  trackers_tidy (NewElementBuilder world parentNode sibling).
Proof.
  constructor; [|constructor]. split; [simpl; lia | reflexivity].
Qed.

Lemma tidy_resume (world : World) (tr : Tracker.t) (sibling : option node) :
  tidy tr -> trackers_tidy (resume world tr sibling).
Proof.
  intros H. unfold resume.
  apply (tidy_pushBlockTracker tr false H), tidy_constructor.
Qed.

Lemma tidy_reset (s : Tracker.SimpleBlockTracker) (world : World) :
  tidy (Tracker.OfSimple (snd (fst (Tracker.reset s world)))).
Proof. simpl. split; [lia | reflexivity]. Qed.

(** C4: [finalize] of a simple, remote or updatable tracker that is the
    current block, in a builder reached by well-nested calls: calls on a
    tidy builder (a new builder is one, [tidy_constructor]) that close no
    element the current block has not opened.  When [first] is absent,
    [finalize] has exactly one empty comment created and inserted at the
    cursor, and that comment becomes the bounds of the tracker, with
    [first] = [last] = the comment; [popBlock] returns the tracker so
    bounded.  When [first] is present, [finalize] appends nothing and
    leaves the builder as it was. *)
Theorem finalize_marks_an_empty_block
    (b0 : Builder) (ops : list operation)
    (t : Tracker.SimpleBlockTracker) (rest : list Tracker.t) :
  trackers_tidy b0 -> in_contract ops b0 ->
  let b := snd (run ops b0) in
  blockStack b = Tracker.OfSimple t :: rest ->
  let comment := Created (fresh (env b)) in
  let b' := snd (finalize (Tracker.OfSimple t) b) in
  let marked :=
    Tracker.OfSimple
      (Tracker.set_last (Some (OfNode comment))
         (Tracker.set_first (Some (OfNode comment)) t)) in
  fst (finalize (Tracker.OfSimple t) b) = Ok tt /\
  (Tracker.first t = None ->
     calls_since (env b) (env b')
     = [CreateComment "" comment;
        InsertBefore (element b) comment (nextSibling b)] /\
     blockStack b' = marked :: rest /\
     fst (popBlock b) = Ok marked) /\
  (Tracker.first t <> None -> finalize (Tracker.OfSimple t) b = (Ok tt, b)).
Proof.
  intros Htidy Hc b Hb comment b' marked.
  pose proof (tidy_run ops b0 Hc Htidy) as Hrun. fold b in Hrun.
  unfold trackers_tidy in Hrun. rewrite Hb in Hrun.
  apply Forall_cons_iff in Hrun. destruct Hrun as [[_ Hdepth] _].
  destruct (finalize_of_the_current_block t rest b Hb) as (H1 & H2 & H3).
  split; [exact H1|]. split; [|exact H3].
  intros Hf. destruct (H2 Hf (Hdepth Hf)) as [Hlog Hstack].
  split; [exact Hlog|]. split; [exact Hstack|].
  unfold popBlock, bind. rewrite (block_current b _ _ Hb).
  fold b' in Hstack.
  destruct (finalize (Tracker.OfSimple t) b) as [[u|msg] b1] eqn:E;
    simpl in H1; [|discriminate].
  subst b'. simpl in Hstack. unfold pop, expect. simpl.
  rewrite Hstack. reflexivity.
Qed.

Lemma finalize_marks_an_empty_block_witness :
  fst (popBlock
         (snd (run [OpenElement "div" None; FlushElement; AppendText "x";
                    CloseElement; PushUpdatableBlock] root)))
  = Ok (Tracker.OfSimple
          (Tracker.mkSimple Tracker.Updatable 3 (Given 0)
             (Some (OfNode (Created 4))) (Some (OfNode (Created 4))) None 0)).
Proof.
  assert (Htidy : trackers_tidy root).
  { constructor; [|constructor]. split; [simpl; lia | reflexivity]. }
  assert (Hc : in_contract
                 [OpenElement "div" None; FlushElement; AppendText "x";
                  CloseElement; PushUpdatableBlock] root).
  { vm_compute. repeat split. }
  assert (Hb : blockStack
                 (snd (run [OpenElement "div" None; FlushElement;
                            AppendText "x"; CloseElement; PushUpdatableBlock]
                         root))
               = [Tracker.OfSimple
                    (Tracker.create Tracker.Updatable 3 (Given 0));
                  Tracker.OfSimple
                    (Tracker.mkSimple Tracker.Simple 0 (Given 0)
                       (Some (OfNode (Created 1)))
                       (Some (OfBounds (BTracker 3)))
                       (Some [DTracker 3]) 0)]).
  { vm_compute. reflexivity. }
  destruct (finalize_marks_an_empty_block root _ _ _ Htidy Hc Hb)
    as (_ & H & _).
  destruct (H eq_refl) as (_ & _ & Hp).
  vm_compute in Hp. vm_compute. exact Hp.
Defined.

(** ** Opening a block *)

(** C7, as the claim has it, fails.  With a block-list tracker as the
    enclosing tracker, [pushRemoteElement] and [pushUpdatableBlock] push the
    new tracker (object 2) and leave the enclosing tracker as it was, with
    no record of the new one.  With the root block of [inside_div] as the
    enclosing tracker, at nesting depth 1, [pushSimpleBlock] adds the new
    tracker (object 2) to its destroyables and leaves its bounds on the
    [div]. *)
Lemma pushed_tracker_registration_counterexample :
  let enclosing := Tracker.OfBlockList (Tracker.mkBlockList 1 (Given 0) [5; 6]) in
  (current (blockStack inside_list) = Some enclosing /\
   fst (pushRemoteElement (Given 9) None inside_list) = Ok tt /\
   blockStack (snd (pushRemoteElement (Given 9) None inside_list))
   = Tracker.OfSimple (Tracker.create Tracker.Remote 2 (Given 9))
       :: enclosing :: tl (blockStack inside_list) /\
   blockStack (snd (pushUpdatableBlock inside_list))
   = Tracker.OfSimple (Tracker.create Tracker.Updatable 2 (Given 0))
       :: enclosing :: tl (blockStack inside_list)) /\
  (blockStack inside_div
   = [Tracker.OfSimple
        (Tracker.mkSimple Tracker.Simple 0 (Given 0)
           (Some (OfNode (Created 1))) (Some (OfNode (Created 1))) None 1)] /\
   blockStack (snd (pushSimpleBlock inside_div))
   = [Tracker.OfSimple (Tracker.create Tracker.Simple 2 (Created 1));
      Tracker.OfSimple
        (Tracker.mkSimple Tracker.Simple 0 (Given 0)
           (Some (OfNode (Created 1))) (Some (OfNode (Created 1)))
           (Some [DTracker 2]) 1)]).
Proof. repeat split. Qed.

(** C7, amended: with an enclosing tracker [c] current, [pushRemoteElement]
    passes the new remote tracker to [c.newDestroyable] only, while
    [pushSimpleBlock], [pushUpdatableBlock] and [pushBlockList] pass the new
    tracker to [c.newDestroyable] and then to [c.newBounds].  When [c] is a
    simple, remote or updatable tracker, [newDestroyable] appends the new
    tracker to its destroyables and leaves [first] and [last] alone, and
    [newBounds] makes the new tracker its [last] (and its [first], if
    absent) at nesting depth 0 and does nothing at another depth.  When [c]
    is a block-list tracker both leave it as it was. *)
Theorem pushed_tracker_registration
    (c : Tracker.t) (rest : list Tracker.t) (b : Builder)
    (e : node) (ns : option node) (list : list nat) :
  blockStack b = c :: rest ->
  let k := fresh (env b) in
  let as_destroyable := Tracker.newDestroyable (DTracker k) c in
  let as_both := Tracker.newBounds (BTracker k) as_destroyable in
  (fst (pushRemoteElement e ns b) = Ok tt /\
   blockStack (snd (pushRemoteElement e ns b))
   = Tracker.OfSimple (Tracker.create Tracker.Remote k e)
       :: as_destroyable :: rest) /\
  (let new := Tracker.OfSimple (Tracker.create Tracker.Simple k (element b)) in
   fst (pushSimpleBlock b) = Ok new /\
   blockStack (snd (pushSimpleBlock b)) = new :: as_both :: rest) /\
  (let new := Tracker.OfSimple (Tracker.create Tracker.Updatable k (element b)) in
   fst (pushUpdatableBlock b) = Ok new /\
   blockStack (snd (pushUpdatableBlock b)) = new :: as_both :: rest) /\
  (let new := Tracker.OfBlockList (Tracker.mkBlockList k (element b) list) in
   fst (pushBlockList list b) = Ok new /\
   blockStack (snd (pushBlockList list b)) = new :: as_both :: rest) /\
  (forall s, c = Tracker.OfSimple s ->
     as_destroyable
     = Tracker.OfSimple
         (Tracker.set_destroyables (Some (registered s ++ [DTracker k])) s) /\
     (Tracker.nesting s = 0%Z ->
      as_both
      = Tracker.OfSimple
          (Tracker.set_last (Some (OfBounds (BTracker k)))
             (Tracker.set_first
                (Some (match Tracker.first s with
                       | Some f => f
                       | None => OfBounds (BTracker k)
                       end))
                (Tracker.set_destroyables
                   (Some (registered s ++ [DTracker k])) s)))) /\
     (Tracker.nesting s <> 0%Z -> as_both = as_destroyable)) /\
  (forall l, c = Tracker.OfBlockList l -> as_destroyable = c /\ as_both = c).
Proof.
  intros Hb. cbv zeta.
  split; [|split; [|split; [|split; [|split]]]].
  - unfold pushRemoteElement, pushElement, pushBlockTracker, new_object,
      store_block, bind, gets, modify, ret, push, current.
    simpl. rewrite Hb. simpl. rewrite ?Hb. split; reflexivity.
  - unfold pushSimpleBlock, pushBlockTracker, new_object,
      store_block, bind, gets, modify, ret, push, current.
    simpl. rewrite Hb. simpl. rewrite ?Hb. split; reflexivity.
  - unfold pushUpdatableBlock, pushBlockTracker, new_object,
      store_block, bind, gets, modify, ret, push, current.
    simpl. rewrite Hb. simpl. rewrite ?Hb. split; reflexivity.
  - unfold pushBlockList, new_object,
      store_block, bind, gets, modify, ret, push, current.
    simpl. rewrite Hb. simpl. rewrite ?Hb. split; reflexivity.
  - intros s ->. cbn [Tracker.newDestroyable Tracker.newBounds].
    split; [reflexivity|]. split; intros Hn.
    + rewrite newBounds_top by exact Hn.
      unfold Tracker.simple_newDestroyable, registered.
      destruct s as [v i p [f|] la ds n]; reflexivity.
    + now rewrite newBounds_nested by exact Hn.
  - intros l ->. split; reflexivity.
Qed.

Lemma pushed_tracker_registration_witness :
  blockStack (snd (pushRemoteElement (Given 9) None root))
  = [Tracker.OfSimple (Tracker.create Tracker.Remote 1 (Given 9));
     Tracker.OfSimple
       (Tracker.mkSimple Tracker.Simple 0 (Given 0) None None
          (Some [DTracker 1]) 0)] /\
  blockStack (snd (pushUpdatableBlock root))
  = [Tracker.OfSimple (Tracker.create Tracker.Updatable 1 (Given 0));
     Tracker.OfSimple
       (Tracker.mkSimple Tracker.Simple 0 (Given 0)
          (Some (OfBounds (BTracker 1))) (Some (OfBounds (BTracker 1)))
          (Some [DTracker 1]) 0)].
Proof.
  destruct (pushed_tracker_registration
              (Tracker.OfSimple (Tracker.create Tracker.Simple 0 (Given 0)))
              [] root (Given 9) None [] eq_refl)
    as ((_ & H1) & _ & (_ & H2) & _).
  split; [exact H1 | exact H2].
Defined.

(** * Further properties of the builder and the trackers *)

(** ** The frames of the cursor *)

(** X1: [popElement] needs a frame beneath the one it pops.  It always
    pops both stacks once.  With at most one frame on the element stack it
    throws, with the element stack emptied and the cursor left where it
    was, and on a builder whose stacks are aligned with both stacks
    emptied; with two frames or more it returns the popped element and
    moves the cursor to the frame beneath, touching neither the block stack
    nor the tree. *)
Theorem popElement_needs_a_frame_beneath (b : Builder) :
  nextSiblingStack (snd (popElement b)) = tl (nextSiblingStack b) /\
  (List.length (elementStack b) <= 1 ->
   fst (popElement b) = Err "can't pop past the last element" /\
   elementStack (snd (popElement b)) = [] /\
   (stacks_aligned b -> nextSiblingStack (snd (popElement b)) = []) /\
   element (snd (popElement b)) = element b /\
   nextSibling (snd (popElement b)) = nextSibling b /\
   blockStack (snd (popElement b)) = blockStack b /\
   env (snd (popElement b)) = env b) /\
  (forall top e es,
     elementStack b = top :: e :: es ->
     fst (popElement b) = Ok (Some top) /\
     elementStack (snd (popElement b)) = e :: es /\
     element (snd (popElement b)) = e /\
     nextSibling (snd (popElement b))
     = match tl (nextSiblingStack b) with n :: _ => n | [] => None end /\
     blockStack (snd (popElement b)) = blockStack b /\
     env (snd (popElement b)) = env b).
Proof.
  unfold popElement, bind, modify, gets, expect, ret, throw, pop, current,
    stacks_aligned.
  split; [|split].
  - simpl. destruct (elementStack b) as [|e0 [|e1 es]]; reflexivity.
  - intros H. destruct (elementStack b) as [|e0 [|e1 es]] eqn:E; simpl in *;
      rewrite ?E; simpl; try lia; repeat split;
      intros Ha; destruct (nextSiblingStack b) as [|n0 [|n1 nss]];
      simpl in *; congruence.
  - intros top e es E. simpl. rewrite E. simpl.
    destruct (tl (nextSiblingStack b)); repeat split.
Qed.

Lemma popElement_needs_a_frame_beneath_witness :
  fst (popElement root) = Err "can't pop past the last element" /\
  nextSiblingStack (snd (popElement root)) = [] /\
  fst (popElement inside_div) = Ok (Some (Created 1)) /\
  element (snd (popElement inside_div)) = Given 0.
Proof.
  destruct (popElement_needs_a_frame_beneath root) as (_ & H & _).
  destruct (popElement_needs_a_frame_beneath inside_div) as (_ & _ & H').
  destruct (H ltac:(simpl; lia)) as (H1 & _ & Hs & _).
  destruct (H' (Created 1) (Given 0) [] eq_refl) as (H2 & _ & H3 & _).
  split; [exact H1 | split; [exact (Hs eq_refl) | split; [exact H2 | exact H3]]].
Defined.

(** X2: [closeElement] on the base frame throws only after the current
    tracker has had its nesting depth decremented and both stacks have been
    emptied: the failure is not free of effects. *)
Theorem closeElement_at_base_fails_after_decrement
    (b : Builder) (t : Tracker.SimpleBlockTracker) (rest : list Tracker.t) :
  List.length (elementStack b) <= 1 ->
  blockStack b = Tracker.OfSimple t :: rest ->
  fst (closeElement b) = Err "can't pop past the last element" /\
  blockStack (snd (closeElement b))
  = Tracker.OfSimple (Tracker.set_nesting (Tracker.nesting t - 1) t) :: rest /\
  elementStack (snd (closeElement b)) = [].
Proof.
  intros Hlen Hb.
  unfold closeElement, willCloseElement, block, store_block, popElement,
    bind, modify, gets, lift, expect, ret, throw, pop, current.
  simpl. rewrite Hb. simpl.
  destruct (elementStack b) as [|e0 [|e1 es]] eqn:E; simpl in *;
    rewrite ?E, ?Hb; simpl; try lia; repeat split.
Qed.

Lemma closeElement_at_base_fails_after_decrement_witness :
  fst (closeElement root) = Err "can't pop past the last element" /\
  blockStack (snd (closeElement root))
  = [Tracker.OfSimple
       (Tracker.mkSimple Tracker.Simple 0 (Given 0) None None None (-1))].
Proof.
  destruct (closeElement_at_base_fails_after_decrement root
              (Tracker.create Tracker.Simple 0 (Given 0)) []
              ltac:(simpl; lia) eq_refl) as (H1 & H2 & _).
  split; [exact H1 | exact H2].
Defined.

(** ** Elements under construction *)

(** X3: the four attribute setters throw outside the constructing state
    and leave the builder as it was; in the constructing state each makes
    one call on the operations recorded by [openElement], for the element
    under construction, and changes nothing else. *)
Theorem attribute_setters_need_construction
    (namespace name value : string) (reference : nat) (isTrusting : bool)
    (b : Builder) :
  (operations b = None \/ constructing b = None ->
   setStaticAttribute name value b
   = (Err "setStaticAttribute should only be called while constructing an element", b) /\
   setStaticAttributeNS namespace name value b
   = (Err "setStaticAttributeNS should only be called while constructing an element", b) /\
   setDynamicAttribute name reference isTrusting b
   = (Err "setDynamicAttribute should only be called while constructing an element", b) /\
   setDynamicAttributeNS namespace name reference isTrusting b
   = (Err "setDynamicAttributeNS should only be called while constructing an element", b)) /\
  (forall ops e,
     operations b = Some ops -> constructing b = Some e ->
     setStaticAttribute name value b
     = (Ok tt, set_env (emit (AddStaticAttribute ops e name value) (env b)) b) /\
     setStaticAttributeNS namespace name value b
     = (Ok tt,
        set_env (emit (AddStaticAttributeNS ops e namespace name value) (env b)) b) /\
     setDynamicAttribute name reference isTrusting b
     = (Ok tt,
        set_env (emit (AddDynamicAttribute ops e name reference isTrusting)
                   (env b)) b) /\
     setDynamicAttributeNS namespace name reference isTrusting b
     = (Ok tt,
        set_env (emit (AddDynamicAttributeNS ops e namespace name reference
                         isTrusting) (env b)) b)).
Proof.
  unfold setStaticAttribute, setStaticAttributeNS, setDynamicAttribute,
    setDynamicAttributeNS, expectOperations, expectConstructing,
    only_while_constructing, call, bind, gets, modify, expect, ret, throw.
  split.
  - intros H. simpl.
    destruct (operations b) eqn:Eo; simpl; [|repeat split].
    destruct (constructing b) eqn:Ec; simpl; [|repeat split].
    destruct H; discriminate.
  - intros ops e Ho Hc. simpl. rewrite Ho. simpl. rewrite Hc. repeat split.
Qed.

Lemma attribute_setters_need_construction_witness :
  fst (setStaticAttribute "class" "a" root)
  = Err "setStaticAttribute should only be called while constructing an element"
  /\
  calls_since (env constructing_div)
    (env (snd (setStaticAttribute "class" "a" constructing_div)))
  = [AddStaticAttribute SimpleElementOperations (Created 1) "class" "a"].
Proof.
  destruct (attribute_setters_need_construction "" "class" "a" 0 false root)
    as [H _].
  destruct (attribute_setters_need_construction "" "class" "a" 0 false
              constructing_div) as [_ H'].
  destruct (H (or_introl eq_refl)) as (H1 & _).
  destruct (H' SimpleElementOperations (Created 1) eq_refl eq_refl) as (H2 & _).
  split.
  - now rewrite H1.
  - now rewrite H2.
Defined.

(** X4: [flushElement] throws outside the constructing state and leaves
    the builder as it was.  After [openElement], with a simple, remote or
    updatable tracker as the current block, it has the created element
    inserted once, under the parent it was created for and before the
    cursor's sibling; the element becomes the cursor parent with no next
    sibling, the construction state is left, and the tracker is told of the
    opened element. *)
Theorem flushElement_inserts_the_element_under_construction
    (tag : string) (ops : option ElementOperations) (b : Builder) :
  (constructing b = None ->
   flushElement b
   = (Err "flushElement should only be called when constructing an element", b))
  /\
  (forall t rest,
     blockStack b = Tracker.OfSimple t :: rest ->
     let created := Created (fresh (env b)) in
     let b' := snd ((openElement tag ops ;;; flushElement) b) in
     fst ((openElement tag ops ;;; flushElement) b) = Ok tt /\
     calls_since (env b) (env b')
     = [CreateElement tag (element b) created;
        InsertBefore (element b) created (nextSibling b)] /\
     element b' = created /\
     nextSibling b' = None /\
     elementStack b' = created :: elementStack b /\
     nextSiblingStack b' = None :: nextSiblingStack b /\
     constructing b' = None /\
     operations b' = None /\
     blockStack b'
     = Tracker.OfSimple (Tracker.simple_openElement created t) :: rest).
Proof.
  split.
  - intros H. unfold flushElement, bind, gets, expect, throw. now rewrite H.
  - intros t rest Hb. cbv zeta.
    unfold openElement, __openElement, flushElement, __flushElement,
      pushElement, didOpenElement, block, store_block, dom_create,
      dom_insertBefore, call, bind, gets, modify, lift, expect, ret, push,
      current.
    simpl. rewrite Hb. simpl. rewrite ?Hb.
    repeat split. log_eq.
Qed.

Lemma flushElement_inserts_the_element_under_construction_witness :
  fst (flushElement root)
  = Err "flushElement should only be called when constructing an element" /\
  blockStack (snd ((openElement "div" None ;;; flushElement) root))
  = [Tracker.OfSimple
       (Tracker.mkSimple Tracker.Simple 0 (Given 0)
          (Some (OfNode (Created 1))) (Some (OfNode (Created 1))) None 1)].
Proof.
  destruct (flushElement_inserts_the_element_under_construction "div" None root)
    as [H H'].
  split.
  - now rewrite (H eq_refl).
  - destruct (H' (Tracker.create Tracker.Simple 0 (Given 0)) [] eq_refl)
      as (_ & _ & _ & _ & _ & _ & _ & _ & H2).
    exact H2.
Defined.

(** ** The dynamic content resolver *)

(** X5: a value that is a tree node is adopted in the same way by the
    trusting and the cautious resolver: the node itself is inserted at the
    cursor, nothing is created or parsed, and with a simple, remote or
    updatable tracker as the current block the content returned is a node
    content whose bounds are that single node. *)
Theorem node_values_are_adopted_in_both_modes
    (v : Opaque) (n : node) (b : Builder) :
  isNode v = Some n ->
  __appendTrustingDynamicContent v b = __appendCautiousDynamicContent v b /\
  calls_since (env b) (env (snd (__appendCautiousDynamicContent v b)))
  = [InsertBefore (element b) n (nextSibling b)] /\
  forall t rest,
    blockStack b = Tracker.OfSimple t :: rest ->
    fst (__appendCautiousDynamicContent v b)
    = Ok (DynamicNodeContent (single (element b) n) n) /\
    blockStack (snd (__appendCautiousDynamicContent v b))
    = Tracker.OfSimple (Tracker.simple_newNode n t) :: rest.
Proof.
  intros Hn. destruct v; try discriminate. injection Hn as ->.
  split; [reflexivity|].
  unfold __appendCautiousDynamicContent, appendNode, __appendNode,
    didAppendNode, block, store_block, dom_insertBefore, call, bind, gets,
    modify, lift, expect, ret, throw, single, current.
  simpl. split.
  - destruct (blockStack b) as [|[t|l] rest]; simpl; log_eq.
  - intros t rest Hb. rewrite Hb. simpl. rewrite ?Hb. split; reflexivity.
Qed.

Lemma node_values_are_adopted_in_both_modes_witness :
  fst (__appendTrustingDynamicContent (ONode (Given 4)) root)
  = Ok (DynamicNodeContent (BSingle (Given 0) (Given 4)) (Given 4)).
Proof.
  destruct (node_values_are_adopted_in_both_modes (ONode (Given 4)) (Given 4)
              root eq_refl) as (He & _ & H).
  rewrite He.
  destruct (H (Tracker.create Tracker.Simple 0 (Given 0)) [] eq_refl) as [H1 _].
  exact H1.
Defined.

(** X6: the cautious resolver has markup parsed for safe strings only,
    and the trusting resolver creates no text node.  For a value that is no
    tree node: when it is a safe string, the cautious resolver hands what
    its [toHTML] returns to [insertHTMLBefore]; when it is no safe string,
    the cautious resolver makes no [insertHTMLBefore] call; the trusting
    resolver makes no [createTextNode] call for any value; for an empty
    value that is no safe string, the trusting resolver has the empty
    markup inserted and the cautious resolver one empty text node.  The two
    resolvers test emptiness and safety in opposite orders: for a value
    that is both, the trusting resolver has the empty markup inserted and
    not what [toHTML] returns. *)
Theorem cautious_parses_markup_of_safe_strings_only
    (v : Opaque) (b : Builder) :
  isNode v = None ->
  let k := fresh (env b) in
  let cautious :=
    calls_since (env b) (env (snd (__appendCautiousDynamicContent v b))) in
  let trusting :=
    calls_since (env b) (env (snd (__appendTrustingDynamicContent v b))) in
  (forall html,
     isSafeString v = Some html ->
     cautious = [InsertHTMLBefore (element b) (nextSibling b) html (BHTML k)]) /\
  (isSafeString v = None ->
   forall p r h bounds, ~ In (InsertHTMLBefore p r h bounds) cautious) /\
  (forall text n, ~ In (CreateTextNode text n) trusting) /\
  (isSafeString v = None -> isEmpty v = true ->
   trusting = [InsertHTMLBefore (element b) (nextSibling b) "" (BHTML k)] /\
   cautious = [CreateTextNode "" (Created k);
               InsertBefore (element b) (Created k) (nextSibling b)]) /\
  (forall html,
     isSafeString v = Some html ->
     trusting
     = [InsertHTMLBefore (element b) (nextSibling b)
          (if isEmpty v then "" else html) (BHTML k)]).
Proof.
  intros Hn. cbv zeta.
  assert (Ht : exists s,
             calls_since (env b)
               (env (snd (__appendTrustingDynamicContent v b)))
             = [InsertHTMLBefore (element b) (nextSibling b) s
                  (BHTML (fresh (env b)))] /\
             (isEmpty v = true -> s = "") /\
             (forall html, isSafeString v = Some html ->
                           isEmpty v = false -> s = html)).
  { unfold __appendTrustingDynamicContent, appendHTML, __appendHTML,
      didAppendBounds, block, store_block, dom_insertHTMLBefore, bind, gets,
      modify, expect, ret, throw, current.
    destruct v as [n|html|s| |str|html]; try discriminate; simpl;
      eexists;
      (split; [destruct (blockStack b) as [|[t|l] rest]; simpl; log_eq|]);
      split; try reflexivity; try discriminate;
      intros h Hh; try discriminate; injection Hh as <-; reflexivity. }
  assert (Hc : (forall html,
                  isSafeString v = Some html ->
                  calls_since (env b)
                    (env (snd (__appendCautiousDynamicContent v b)))
                  = [InsertHTMLBefore (element b) (nextSibling b) html
                       (BHTML (fresh (env b)))]) /\
               (isSafeString v = None ->
                exists s,
                  calls_since (env b)
                    (env (snd (__appendCautiousDynamicContent v b)))
                  = [CreateTextNode s (Created (fresh (env b)));
                     InsertBefore (element b) (Created (fresh (env b)))
                       (nextSibling b)] /\
                  (isEmpty v = true -> s = ""))).
  { unfold __appendCautiousDynamicContent, appendText, __appendText,
      appendHTML, __appendHTML, didAppendNode, didAppendBounds, block,
      store_block, dom_create, dom_insertBefore, dom_insertHTMLBefore, call,
      bind, gets, modify, lift, expect, ret, throw, single, current.
    destruct v as [n|html|s| |str|html]; try discriminate; simpl; split;
      try discriminate;
      try (intros h Hh; injection Hh as <-;
           destruct (blockStack b) as [|[t|l] rest]; simpl; log_eq);
      intros _; eexists;
      (split; [destruct (blockStack b) as [|[t|l] rest]; simpl; log_eq|]);
      try reflexivity; discriminate. }
  destruct Ht as (s & Ht & Hte & Hts). destruct Hc as (Hc1 & Hc2).
  split; [exact Hc1|]. split; [|split; [|split]].
  - intros Hs p r h bounds. destruct (Hc2 Hs) as (s' & Hc & _).
    rewrite Hc. simpl. intros [H|[H|[]]]; discriminate.
  - intros text n. rewrite Ht. simpl. intros [H|[]]; discriminate.
  - intros Hs He. destruct (Hc2 Hs) as (s' & Hc & Hce).
    rewrite Ht, Hc, (Hte He), (Hce He). split; reflexivity.
  - intros html Hs. rewrite Ht. destruct (isEmpty v) eqn:He.
    + now rewrite (Hte eq_refl).
    + now rewrite (Hts html Hs eq_refl).
Qed.

Lemma cautious_parses_markup_of_safe_strings_only_witness :
  calls_since (env root)
    (env (snd (__appendCautiousDynamicContent (OSafeEmpty "<i>x</i>") root)))
  = [InsertHTMLBefore (Given 0) None "<i>x</i>" (BHTML 1)] /\
  calls_since (env root)
    (env (snd (__appendTrustingDynamicContent (OSafeEmpty "<i>x</i>") root)))
  = [InsertHTMLBefore (Given 0) None "" (BHTML 1)] /\
  calls_since (env root) (env (snd (__appendCautiousDynamicContent OEmpty root)))
  = [CreateTextNode "" (Created 1); InsertBefore (Given 0) (Created 1) None].
Proof.
  destruct (cautious_parses_markup_of_safe_strings_only
              (OSafeEmpty "<i>x</i>") root eq_refl) as (H1 & _ & _ & _ & H3).
  destruct (cautious_parses_markup_of_safe_strings_only OEmpty root eq_refl)
    as (_ & _ & _ & H2 & _).
  split; [|split].
  - exact (H1 "<i>x</i>" eq_refl).
  - exact (H3 "<i>x</i>" eq_refl).
  - destruct (H2 eq_refl eq_refl) as [_ H]. exact H.
Defined.

(** ** Destroyables *)



(** X8: [reset] is idempotent on the tracker.  A second [reset] finds
    nothing to hand to [didDestroy]: it only asks for the (empty) range to
    be cleared again, and leaves the tracker as the first [reset] left it. *)
Theorem reset_twice_only_clears_again
    (s : Tracker.SimpleBlockTracker) (env : World) :
  let '(_, s1, env1) := Tracker.reset s env in
  let '(next2, s2, env2) := Tracker.reset s1 env1 in
  s2 = s1 /\
  calls_since env1 env2 = [Clear (BTracker (Tracker.id s)) next2] /\
  next2 = successor env (log env1) (BTracker (Tracker.id s)).
Proof.
  unfold Tracker.reset, clear. cbn zeta. simpl.
  split; [reflexivity|]. split.
  - apply calls_since_app. reflexivity.
  - destruct (each_destroyable_frame DidDestroy s env) as [_ H].
    now rewrite H.
Qed.

(** ** Closing and resuming blocks *)

(** X9: a block-list tracker gets no marker when it is closed: [popBlock]
    with a block-list tracker as the current block makes no call on the
    tree, also when the list is empty, and returns the tracker as it was
    pushed. *)
Theorem popBlock_of_a_block_list_adds_no_marker
    (l : Tracker.BlockListTracker) (rest : list Tracker.t) (b : Builder) :
  blockStack b = Tracker.OfBlockList l :: rest ->
  popBlock b = (Ok (Tracker.OfBlockList l), set_blockStack rest b).
Proof.
  intros Hb.
  unfold popBlock, block, finalize, bind, gets, expect, ret, pop, current.
  rewrite Hb. simpl. rewrite Hb. reflexivity.
Qed.

Lemma popBlock_of_a_block_list_adds_no_marker_witness :
  popBlock (snd (pushBlockList [] root))
  = (Ok (Tracker.OfBlockList (Tracker.mkBlockList 1 (Given 0) [])),
     set_blockStack (tl (blockStack (snd (pushBlockList [] root))))
       (snd (pushBlockList [] root))).
Proof.
  apply (popBlock_of_a_block_list_adds_no_marker
           (Tracker.mkBlockList 1 (Given 0) [])).
  reflexivity.
Defined.

(** X10: an append that the current block rejects has already changed the
    tree.  With no current block, or with a block-list tracker as the
    current block, [appendText], [appendComment] and [appendNode] throw, but
    only after the node has been created and inserted at the cursor. *)
Theorem rejected_appends_have_inserted_the_node
    (text : string) (n : node) (b : Builder) :
  let k := fresh (env b) in
  (blockStack b = [] \/
   exists l rest, blockStack b = Tracker.OfBlockList l :: rest) ->
  (exists msg, fst (appendText text b) = Err msg) /\
  calls_since (env b) (env (snd (appendText text b)))
  = [CreateTextNode text (Created k);
     InsertBefore (element b) (Created k) (nextSibling b)] /\
  (exists msg, fst (appendComment text b) = Err msg) /\
  calls_since (env b) (env (snd (appendComment text b)))
  = [CreateComment text (Created k);
     InsertBefore (element b) (Created k) (nextSibling b)] /\
  (exists msg, fst (appendNode n b) = Err msg) /\
  calls_since (env b) (env (snd (appendNode n b)))
  = [InsertBefore (element b) n (nextSibling b)].
Proof.
  cbv zeta.
  unfold appendText, __appendText, appendComment, __appendComment,
    appendNode, __appendNode, didAppendNode, block, store_block, dom_create,
    dom_insertBefore, call, bind, gets, modify, lift, expect, ret, throw,
    current.
  simpl.
  intros [Hb | (l & rest & Hb)]; rewrite Hb; simpl;
    repeat split; try (eexists; reflexivity); log_eq.
Qed.

Lemma rejected_appends_have_inserted_the_node_witness :
  calls_since (env inside_list) (env (snd (appendText "x" inside_list)))
  = [CreateTextNode "x" (Created 2); InsertBefore (Given 0) (Created 2) None].
Proof.
  destruct (rejected_appends_have_inserted_the_node "x" (Given 4) inside_list)
    as (_ & H & _).
  - right. eexists. eexists. reflexivity.
  - exact H.
Defined.

(** X11: an updatable tracker that has been reset can be rebuilt where it
    was.  [resume] on the tracker left by [reset], at the sibling [reset]
    returned, followed at once by [popBlock], has one empty comment created
    and inserted under the tracker's parent, before that sibling, and
    returns the tracker with the comment as both bounds. *)
Theorem reset_then_resume_rebuilds_in_place
    (s : Tracker.SimpleBlockTracker) (world : World) :
  let '(next, s1, world1) := Tracker.reset s world in
  let b := resume world1 (Tracker.OfSimple s1) next in
  let comment := Created (S (fresh world)) in
  fst (popBlock b)
  = Ok (Tracker.OfSimple
          (Tracker.mkSimple (Tracker.variant s) (Tracker.id s)
             (Tracker.parent s) (Some (OfNode comment))
             (Some (OfNode comment)) None 0)) /\
  calls_since world1 (env (snd (popBlock b)))
  = [CreateComment "" comment; InsertBefore (Tracker.parent s) comment next].
Proof.
  unfold Tracker.reset, clear. cbn zeta.
  destruct (each_destroyable_frame DidDestroy s world) as [Hf Hs].
  unfold resume, NewElementBuilder, pushSimpleBlock, pushBlockTracker,
    popBlock, finalize, appendComment, __appendComment, didAppendNode, block,
    store_block, new_object, dom_create, dom_insertBefore, call, bind, gets,
    modify, lift, expect, ret, throw, push, pop, current.
  simpl. rewrite Hf. split; [reflexivity|]. log_eq.
Qed.

(** ** What every sequence of calls keeps *)

Section Keeping.
Variables P E : Builder -> Prop.
Hypothesis P_E : forall b, P b -> E b.

Lemma keeps_ret {A} (a : A) : keeps P E (ret a).
Proof. intros b H. exact H. Qed.

Lemma keeps_gets {A} (f : Builder -> A) : keeps P E (gets f).
Proof. intros b H. exact H. Qed.

Lemma keeps_throw {A} (msg : string) : keeps P E (@throw A msg).
Proof. intros b H. apply P_E, H. Qed.

Lemma keeps_lift {A} (r : result A) : keeps P E (lift r).
Proof. intros b H. destruct r; simpl; auto. Qed.

Lemma keeps_expect {A} (v : option A) (msg : string) : keeps P E (expect v msg).
Proof. destruct v; intros b H; simpl; auto. Qed.

Lemma keeps_bind {A B} (m : M A) (k : A -> M B) :
  keeps P E m -> (forall a, keeps P E (k a)) -> keeps P E (bind m k).
Proof.
  intros Hm Hk b H. unfold bind.
  specialize (Hm b H). destruct (m b) as [[a|msg] b']; simpl in *.
  - apply Hk, Hm.
  - exact Hm.
Qed.
End Keeping.

Lemma steady_faulted (l0 : list event) (b : Builder) :
  steady l0 b -> faulted l0 b.
Proof. intros (H1 & H2). split; auto. Qed.

Lemma built_more (l0 : list event) (b b' : Builder) (l' : list event) :
  only_built_since l0 b ->
  log (env b') = log (env b) ++ l' -> Forall builds l' ->
  only_built_since l0 b'.
Proof.
  intros (l & Hl & Hb) Hl' Hb'. exists (l ++ l'). split.
  - now rewrite Hl', Hl, app_assoc.
  - apply Forall_app. now split.
Qed.

(** The trackers keep both bounds or neither. *)
Lemma newNode_both_or_neither (n : node) (tr tr' : Tracker.t) :
  both_or_neither tr -> Tracker.newNode n tr = Ok tr' -> both_or_neither tr'.
Proof.
  destruct tr as [s|l]; simpl; [|discriminate].
  intros H E. injection E as <-. simpl. unfold Tracker.simple_newNode.
  destruct (negb (Tracker.nesting s =? 0)%Z); [exact H|].
  destruct (Tracker.first s) eqn:F; simpl; rewrite ?F; split; discriminate.
Qed.

Lemma newBounds_both_or_neither (bounds : Bounds) (tr : Tracker.t) :
  both_or_neither tr -> both_or_neither (Tracker.newBounds bounds tr).
Proof.
  destruct tr as [s|l]; simpl; [|trivial].
  intros H. unfold Tracker.simple_newBounds.
  destruct (negb (Tracker.nesting s =? 0)%Z); [exact H|].
  destruct (Tracker.first s) eqn:F; simpl; rewrite ?F; split; discriminate.
Qed.

Lemma newDestroyable_both_or_neither (d : Destroyable) (tr : Tracker.t) :
  both_or_neither tr -> both_or_neither (Tracker.newDestroyable d tr).
Proof. destruct tr as [s|l]; simpl; trivial. Qed.

Lemma openElement_both_or_neither (e : node) (tr tr' : Tracker.t) :
  both_or_neither tr -> Tracker.openElement e tr = Ok tr' ->
  both_or_neither tr'.
Proof.
  destruct tr as [s|l]; simpl; [|discriminate].
  intros H E. injection E as <-.
  apply (newNode_both_or_neither e (Tracker.OfSimple s)
           (Tracker.OfSimple (Tracker.simple_newNode e s)) H eq_refl).
Qed.

Lemma closeElement_both_or_neither (tr tr' : Tracker.t) :
  both_or_neither tr -> Tracker.closeElement tr = Ok tr' ->
  both_or_neither tr'.
Proof.
  destruct tr as [s|l]; simpl; [|discriminate].
  intros H E. injection E as <-. exact H.
Qed.

Create HintDb steady.

Ltac keep :=
  repeat match goal with
    | |- keeps _ _ (bind _ _) => apply keeps_bind; [ | intro ]
    | |- keeps _ _ (ret _) => apply keeps_ret
    | |- keeps _ _ (gets _) => apply keeps_gets
    | |- keeps _ _ (expect _ _) => apply keeps_expect; apply steady_faulted
    | |- keeps _ _ (lift _) => apply keeps_lift; apply steady_faulted
    | |- keeps _ _ (throw _) => apply keeps_throw; apply steady_faulted
    | |- keeps _ _ (match ?x with _ => _ end) => destruct x
    | |- _ => solve [auto with steady]
    end.

(** Opens a builder and what is known of it. *)
Ltac open_builder b H :=
  let Hc1 := fresh "Hc1" in
  let Hc2 := fresh "Hc2" in
  let Ha := fresh "Ha" in
  let Hp := fresh "Hp" in
  let Ht := fresh "Ht" in
  let Hl := fresh "Hl" in
  destruct H as ((Hc1 & Hc2) & Ha & Hp & Ht & Hl);
  destruct b as [w e ns c o es nss bs d];
  unfold cursor_on_top, stacks_aligned, constructing_paired, current in *;
  simpl in *.

Ltac close_builder :=
  unfold steady, faulted, cursor_on_top, stacks_aligned, constructing_paired,
    frames_exhausted, current;
  simpl; repeat match goal with |- _ /\ _ => split end; auto; try tauto.

Section Steady.
Variable l0 : list event.

Lemma steady_env_only (b : Builder) (l' : list event) (k : nat) :
  steady l0 b -> Forall builds l' ->
  steady l0 (set_env (mkWorld (log (env b) ++ l') k (successor (env b))) b).
Proof.
  intros H Hl'. destruct H as (H1 & H2 & H3 & H4 & H5).
  repeat split; try apply H1; auto.
  - apply H3.
  - apply H3.
  - apply (built_more l0 b _ l'); auto.
Qed.

Lemma steady_call (e : event) :
  builds e -> keeps (steady l0) (faulted l0) (call e).
Proof.
  intros He b H. simpl. apply (steady_env_only b [e] (fresh (env b))); auto.
Qed.

Lemma steady_dom_create (mk : node -> event) :
  (forall n, builds (mk n)) -> keeps (steady l0) (faulted l0) (dom_create mk).
Proof.
  intros He b H. simpl.
  apply (steady_env_only b [mk (Created (fresh (env b)))] (S (fresh (env b))));
    auto.
Qed.

Lemma steady_dom_insertHTMLBefore (p : node) (r : option node) (h : string) :
  keeps (steady l0) (faulted l0) (dom_insertHTMLBefore p r h).
Proof.
  intros b H. simpl.
  apply (steady_env_only b
           [InsertHTMLBefore p r h (BHTML (fresh (env b)))] (S (fresh (env b))));
    auto. repeat constructor.
Qed.

Lemma steady_new_object : keeps (steady l0) (faulted l0) new_object.
Proof.
  intros b H. simpl.
  pose proof (steady_env_only b [] (S (fresh (env b))) H (Forall_nil _)) as H'.
  now rewrite app_nil_r in H'.
Qed.

Lemma steady_block : keeps (steady l0) (faulted l0) block.
Proof. unfold block. keep. Qed.

Lemma steady_pushElement (e' : node) (ns' : option node) :
  keeps (steady l0) (faulted l0) (pushElement e' ns').
Proof. intros b H. open_builder b H. close_builder. Qed.

Lemma steady_popElement : keeps (steady l0) (faulted l0) popElement.
Proof.
  intros b H. open_builder b H.
  unfold popElement, bind, modify, gets, expect, ret, throw, pop, current.
  simpl.
  destruct es as [|e0 [|e1 es]]; destruct nss as [|n0 [|n1 nss]];
    simpl in *; try discriminate; close_builder.
Qed.

Lemma steady_pushBlockTracker (tr : Tracker.t) (isRemote : bool) :
  both_or_neither tr ->
  keeps (steady l0) (faulted l0) (pushBlockTracker tr isRemote).
Proof.
  intros Htr b H. open_builder b H.
  unfold pushBlockTracker, store_block, bind, modify, gets, ret, push, current.
  simpl. destruct bs as [|cur rest]; simpl; close_builder.
  inversion Ht; subst. repeat constructor; auto.
  destruct isRemote; simpl;
    auto using newBounds_both_or_neither, newDestroyable_both_or_neither.
Qed.

Lemma steady_pushBlockList (l : list nat) :
  keeps (steady l0) (faulted l0) (pushBlockList l).
Proof.
  intros b H. open_builder b H.
  unfold pushBlockList, store_block, new_object, bind, modify, gets, ret,
    push, current.
  simpl. destruct bs as [|cur rest]; simpl; close_builder;
    try (repeat constructor; fail).
  inversion Ht; subst. repeat constructor; simpl; auto.
  auto using newBounds_both_or_neither, newDestroyable_both_or_neither.
Qed.

Lemma steady_didAddDestroyable (x : Destroyable) :
  keeps (steady l0) (faulted l0) (didAddDestroyable x).
Proof.
  intros b H. open_builder b H.
  unfold didAddDestroyable, block, store_block, bind, modify, gets, expect,
    ret, throw, current.
  simpl. destruct bs as [|cur rest]; simpl; close_builder.
  inversion Ht; subst. constructor; auto using newDestroyable_both_or_neither.
Qed.

Lemma steady_didAppendBounds (x : Bounds) :
  keeps (steady l0) (faulted l0) (didAppendBounds x).
Proof.
  intros b H. open_builder b H.
  unfold didAppendBounds, block, store_block, bind, modify, gets, expect,
    ret, throw, current.
  simpl. destruct bs as [|cur rest]; simpl; close_builder.
  inversion Ht; subst. constructor; auto using newBounds_both_or_neither.
Qed.

Lemma steady_didAppendNode (n : node) :
  keeps (steady l0) (faulted l0) (didAppendNode n).
Proof.
  intros b H. open_builder b H.
  unfold didAppendNode, block, store_block, bind, modify, gets, lift, expect,
    ret, throw, current.
  simpl. destruct bs as [|cur rest]; simpl; [close_builder|].
  destruct (Tracker.newNode n cur) as [tr'|msg] eqn:E; simpl; close_builder.
  inversion Ht; subst. constructor; eauto using newNode_both_or_neither.
Qed.

Lemma steady_didOpenElement (n : node) :
  keeps (steady l0) (faulted l0) (didOpenElement n).
Proof.
  intros b H. open_builder b H.
  unfold didOpenElement, block, store_block, bind, modify, gets, lift, expect,
    ret, throw, current.
  simpl. destruct bs as [|cur rest]; simpl; [close_builder|].
  destruct (Tracker.openElement n cur) as [tr'|msg] eqn:E; simpl; close_builder.
  inversion Ht; subst. constructor; eauto using openElement_both_or_neither.
Qed.

Lemma steady_willCloseElement : keeps (steady l0) (faulted l0) willCloseElement.
Proof.
  intros b H. open_builder b H.
  unfold willCloseElement, block, store_block, bind, modify, gets, lift,
    expect, ret, throw, current.
  simpl. destruct bs as [|cur rest]; simpl; [close_builder|].
  destruct (Tracker.closeElement cur) as [tr'|msg] eqn:E; simpl; close_builder.
  inversion Ht; subst. constructor; eauto using closeElement_both_or_neither.
Qed.
End Steady.

#[local] Hint Resolve steady_call steady_dom_create steady_dom_insertHTMLBefore
  steady_new_object steady_block steady_pushElement steady_popElement
  steady_pushBlockTracker steady_pushBlockList steady_didAddDestroyable
  steady_didAppendBounds steady_didAppendNode steady_didOpenElement
  steady_willCloseElement : steady.
#[local] Hint Extern 1 (builds _) => exact I : steady.
#[local] Hint Extern 1 (forall n : node, builds _) => intro; exact I : steady.
#[local] Hint Extern 1 (both_or_neither _) => simpl; tauto : steady.

Section SteadyCalls.
Variable l0 : list event.

Lemma steady_openElement (tag : string) (ops : option ElementOperations) :
  keeps (steady l0) (faulted l0) (openElement tag ops).
Proof.
  intros b H. simpl.
  pose proof (steady_env_only l0 b
                [CreateElement tag (element b) (Created (fresh (env b)))]
                (S (fresh (env b))) H) as H'.
  destruct H' as (H1 & H2 & H3 & H4 & H5); [repeat constructor|].
  repeat split; try apply H1; auto; discriminate.
Qed.

Lemma steady_flushElement : keeps (steady l0) (faulted l0) flushElement.
Proof.
  intros b H.
  destruct (constructing b) as [c|] eqn:Ec.
  - pose (b2 := mkBuilder (emit (InsertBefore (element b) c (nextSibling b))
                             (env b))
                  c None None None (c :: elementStack b)
                  (None :: nextSiblingStack b) (blockStack b)
                  (defaultOperations b)).
    assert (H2 : steady l0 b2).
    { destruct H as (H1 & Ha & Hp & Ht & Hl). subst b2.
      unfold steady, cursor_on_top, stacks_aligned, constructing_paired in *.
      simpl. repeat match goal with |- _ /\ _ => split end; auto; try tauto.
      apply (built_more l0 b _ [InsertBefore (element b) c (nextSibling b)]);
        auto. repeat constructor. }
    assert (E : flushElement b = (didOpenElement c ;;; ret tt) b2).
    { unfold flushElement, __flushElement, pushElement, dom_insertBefore,
        call, bind, gets, modify, expect, ret, push.
      rewrite Ec. reflexivity. }
    rewrite E. revert H2. generalize b2.
    change (keeps (steady l0) (faulted l0) (didOpenElement c ;;; ret tt)).
    keep.
  - assert (E : flushElement b
                = (Err "flushElement should only be called when constructing an element", b)).
    { unfold flushElement, bind, gets, expect, throw. now rewrite Ec. }
    rewrite E. simpl. apply steady_faulted, H.
Qed.

Lemma steady_appendText (s : string) :
  keeps (steady l0) (faulted l0) (appendText s).
Proof. unfold appendText, __appendText, dom_insertBefore. keep. Qed.

Lemma steady_appendComment (s : string) :
  keeps (steady l0) (faulted l0) (appendComment s).
Proof. unfold appendComment, __appendComment, dom_insertBefore. keep. Qed.

Lemma steady_appendNode (n : node) :
  keeps (steady l0) (faulted l0) (appendNode n).
Proof. unfold appendNode, __appendNode, dom_insertBefore. keep. Qed.

Lemma steady_appendHTML (h : string) :
  keeps (steady l0) (faulted l0) (appendHTML h).
Proof. unfold appendHTML, __appendHTML. keep. Qed.

Lemma steady_popBlock : keeps (steady l0) (faulted l0) popBlock.
Proof.
  unfold popBlock.
  apply keeps_bind; [apply steady_block | intros tr].
  apply keeps_bind.
  { unfold finalize. pose proof (steady_appendComment "") as Hc. keep. }
  intros _. apply keeps_bind; [|intro; keep].
  intros b H. open_builder b H. unfold pop. simpl. close_builder.
  destruct bs; simpl; auto. now inversion Ht.
Qed.

Lemma steady_perform (o : operation) :
  keeps (steady l0) (faulted l0) (perform o).
Proof.
  pose proof steady_openElement. pose proof steady_flushElement.
  pose proof steady_appendText. pose proof steady_appendComment.
  pose proof steady_appendNode. pose proof steady_appendHTML.
  pose proof steady_popBlock.
  destruct o; unfold perform, discard;
    unfold pushSimpleBlock, pushUpdatableBlock, pushRemoteElement,
      popRemoteElement, appendTrustingDynamicContent,
      __appendTrustingDynamicContent, appendCautiousDynamicContent,
      __appendCautiousDynamicContent, setStaticAttribute,
      setStaticAttributeNS, setDynamicAttribute, setDynamicAttributeNS,
      expectOperations, expectConstructing, closeElement;
    keep.
Qed.

Lemma steady_run (ops : list operation) :
  keeps (steady l0) (faulted l0) (run ops).
Proof.
  induction ops as [|o ops IH]; simpl.
  - apply keeps_ret.
  - apply keeps_bind; [apply steady_perform | intros _; exact IH].
Qed.
End SteadyCalls.

Lemma steady_constructor (world : World) (parentNode : node)
    (sibling : option node) :
  steady (log world) (NewElementBuilder world parentNode sibling).
Proof.
  unfold steady, cursor_on_top, stacks_aligned, constructing_paired. simpl.
  repeat match goal with |- _ /\ _ => split end; auto; try tauto.
  - repeat constructor; simpl; tauto.
  - exists []. split; [now rewrite app_nil_r | constructor].
Qed.

(** ** Well-nested content *)

Lemma run_app (l1 l2 : list operation) (b : Builder) :
  run (l1 ++ l2) b
  = match run l1 b with
    | (Ok _, b') => run l2 b'
    | (Err msg, b') => (Err msg, b')
    end.
Proof.
  revert b. induction l1 as [|o l1 IH]; intros b; simpl.
  - reflexivity.
  - unfold bind. destruct (perform o b) as [[[]|msg] b']; [apply IH | reflexivity].
Qed.

Lemma run_cons (o : operation) (l : list operation) (b : Builder) :
  run (o :: l) b
  = match perform o b with
    | (Ok _, b') => run l b'
    | (Err msg, b') => (Err msg, b')
    end.
Proof. reflexivity. Qed.

Lemma extend_extend (w : World) (l l' : list event) (k k' : nat) :
  extend (extend w l k) l' k' = extend w (l ++ l') k'.
Proof. unfold extend. simpl. now rewrite app_assoc. Qed.

Lemma extend_nothing (w : World) : extend w [] (fresh w) = w.
Proof. unfold extend. rewrite app_nil_r. now destruct w. Qed.

Lemma content_induction (P : content -> Prop) :
  (forall s, P (Text s)) ->
  (forall s, P (Comment s)) ->
  (forall tag attributes children,
     Forall P children -> P (Element tag attributes children)) ->
  forall c, P c.
Proof.
  intros HT HC HE.
  fix IH 1. intros [s|s|tag attributes children].
  - apply HT.
  - apply HC.
  - apply HE. induction children as [|c cs IHcs]; constructor.
    + apply IH.
    + exact IHcs.
Qed.

Lemma nodes_of_positive (c : content) : 0 < nodes_of c.
Proof. destruct c; simpl; lia. Qed.

(** The attributes of an element under construction. *)
Lemma run_attributes (attributes : list (string * string))
    (rest : list operation) (o : ElementOperations) (el : node) :
  forall w e ns es nss bs d,
    run (map (fun a => SetStaticAttribute (fst a) (snd a)) attributes ++ rest)
      (mkBuilder w e ns (Some el) (Some o) es nss bs d)
    = run rest
        (mkBuilder
           (extend w
              (map (fun a => AddStaticAttribute o el (fst a) (snd a)) attributes)
              (fresh w))
           e ns (Some el) (Some o) es nss bs d).
Proof.
  induction attributes as [|a attributes IH]; intros w e ns es nss bs d.
  - simpl map. now rewrite extend_nothing.
  - simpl map. rewrite <- app_comm_cons, run_cons.
    change (perform (SetStaticAttribute (fst a) (snd a))
              (mkBuilder w e ns (Some el) (Some o) es nss bs d))
      with (Ok tt,
            mkBuilder (extend w [AddStaticAttribute o el (fst a) (snd a)] (fresh w))
              e ns (Some el) (Some o) es nss bs d).
    cbv iota. rewrite IH. now rewrite extend_extend.
Qed.

Lemma newNode_keeps_nesting (n : node) (t : Tracker.SimpleBlockTracker) :
  Tracker.nesting (Tracker.simple_newNode n t) = Tracker.nesting t.
Proof.
  unfold Tracker.simple_newNode.
  destruct (negb (Tracker.nesting t =? 0)%Z); [reflexivity|].
  destruct (Tracker.first t); reflexivity.
Qed.

(** Closing undoes the depth of opening and keeps what opening recorded. *)
Lemma closeElement_after_openElement (n : node)
    (t : Tracker.SimpleBlockTracker) :
  Tracker.simple_closeElement (Tracker.simple_openElement n t)
  = Tracker.simple_newNode n t.
Proof.
  unfold Tracker.simple_closeElement, Tracker.simple_openElement,
    Tracker.set_nesting.
  destruct (Tracker.simple_newNode n t) as [v i p f la ds k]. simpl.
  f_equal. lia.
Qed.

Section Nested.
Variable hidden : content -> Prop.
Hypothesis hidden_spec :
  forall c, hidden c ->
            forall w e ns es nss t rest d,
              (0 < Tracker.nesting t)%Z ->
              run (calls_of c) (idle w e ns es nss t rest d)
              = (Ok tt,
                 idle (extend w (tree_calls d e ns (fresh w) c)
                         (fresh w + nodes_of c))
                   e ns es nss t rest d).

Lemma run_children (children : list content) :
  Forall hidden children ->
  forall w e ns es nss t rest d,
    (0 < Tracker.nesting t)%Z ->
    run (flat_map calls_of children) (idle w e ns es nss t rest d)
    = (Ok tt,
       idle (extend w (tree_calls_all d e ns (fresh w) children)
               (fresh w + list_sum (map nodes_of children)))
         e ns es nss t rest d).
Proof.
  induction 1 as [|c cs Hc Hcs IH]; intros w e ns es nss t rest d Ht.
  - simpl. rewrite Nat.add_0_r. now rewrite extend_nothing.
  - simpl flat_map. rewrite run_app, (hidden_spec c Hc) by exact Ht.
    rewrite IH by exact Ht.
    rewrite extend_extend. simpl. now rewrite Nat.add_assoc.
Qed.

Lemma run_element (tag : string) (attributes : list (string * string))
    (children : list content) :
  Forall hidden children ->
  forall w e ns es nss t rest d,
    (0 <= Tracker.nesting t)%Z ->
    run (calls_of (Element tag attributes children))
      (idle w e ns es nss t rest d)
    = (Ok tt,
       idle (extend w
               (tree_calls d e ns (fresh w) (Element tag attributes children))
               (fresh w + nodes_of (Element tag attributes children)))
         e ns es nss (Tracker.simple_newNode (Created (fresh w)) t) rest d).
Proof.
  intros Hcs w e ns es nss t rest d Ht.
  set (el := Created (fresh w)).
  simpl calls_of. rewrite run_cons.
  change (perform (OpenElement tag None) (idle w e ns es nss t rest d))
    with (Ok tt,
          mkBuilder (extend w [CreateElement tag e el] (S (fresh w)))
            e ns (Some el) (Some d) (e :: es) (ns :: nss)
            (Tracker.OfSimple t :: rest) d).
  cbv iota. rewrite run_attributes, run_cons.
  match goal with
  | |- context [perform FlushElement (mkBuilder ?W _ _ _ _ _ _ _ _)] =>
      change (perform FlushElement
                (mkBuilder W e ns (Some el) (Some d) (e :: es) (ns :: nss)
                   (Tracker.OfSimple t :: rest) d))
        with (Ok tt,
              idle (extend W [InsertBefore e el ns] (fresh W)) el None
                (e :: es) (ns :: nss) (Tracker.simple_openElement el t) rest d)
  end.
  cbv iota. rewrite run_app, (run_children children Hcs).
  - rewrite run_cons.
    match goal with
    | |- context [perform CloseElement (idle ?W _ _ _ _ _ _ _)] =>
        change (perform CloseElement
                  (idle W el None (e :: es) (ns :: nss)
                     (Tracker.simple_openElement el t) rest d))
          with (Ok tt,
                idle W e ns es nss
                  (Tracker.simple_closeElement
                     (Tracker.simple_openElement el t)) rest d)
    end.
    cbv iota. simpl run. unfold ret.
    rewrite closeElement_after_openElement, !extend_extend.
    simpl. rewrite Nat.add_succ_r. reflexivity.
  - unfold Tracker.simple_openElement. simpl.
    rewrite newNode_keeps_nesting. lia.
Qed.
End Nested.

Lemma nested_content_is_hidden (c : content) :
  forall w e ns es nss t rest d,
    (0 < Tracker.nesting t)%Z ->
    run (calls_of c) (idle w e ns es nss t rest d)
    = (Ok tt,
       idle (extend w (tree_calls d e ns (fresh w) c) (fresh w + nodes_of c))
         e ns es nss t rest d).
Proof.
  induction c as [s|s|tag attributes children IH] using content_induction;
    intros w e ns es nss t rest d Ht.
  - simpl calls_of. rewrite run_cons.
    change (perform (AppendText s) (idle w e ns es nss t rest d))
      with (Ok tt,
            idle (extend (extend w [CreateTextNode s (Created (fresh w))]
                            (S (fresh w)))
                    [InsertBefore e (Created (fresh w)) ns] (S (fresh w)))
              e ns es nss (Tracker.simple_newNode (Created (fresh w)) t) rest d).
    cbv iota. rewrite newNode_nested by lia. rewrite extend_extend.
    simpl. now rewrite Nat.add_1_r.
  - simpl calls_of. rewrite run_cons.
    change (perform (AppendComment s) (idle w e ns es nss t rest d))
      with (Ok tt,
            idle (extend (extend w [CreateComment s (Created (fresh w))]
                            (S (fresh w)))
                    [InsertBefore e (Created (fresh w)) ns] (S (fresh w)))
              e ns es nss (Tracker.simple_newNode (Created (fresh w)) t) rest d).
    cbv iota. rewrite newNode_nested by lia. rewrite extend_extend.
    simpl. now rewrite Nat.add_1_r.
  - rewrite (run_element _ (fun c H => H) tag attributes children IH) by lia.
    now rewrite newNode_nested by lia.
Qed.

Lemma idle_builder (b : Builder) (t : Tracker.SimpleBlockTracker)
    (rest : list Tracker.t) :
  blockStack b = Tracker.OfSimple t :: rest ->
  constructing b = None -> operations b = None -> cursor_on_top b ->
  exists w e ns es nss d, b = idle w e ns es nss t rest d.
Proof.
  intros Hb Hc Ho (H1 & H2).
  destruct b as [w e ns c o es nss bs d]. unfold current in *. simpl in *.
  subst. destruct es, nss; try discriminate.
  injection H1 as ->. injection H2 as ->.
  now exists w, e, ns, es, nss, d.
Qed.

(** X12: content appended inside an open element is hidden from the
    current block.  When the current block is a simple, remote or updatable
    tracker at a nesting depth above 0, and the builder constructs no
    element and has its cursor on the top frame, appending any well-nested
    content (text, comments, elements with static attributes and children,
    to any depth) returns, makes on the tree exactly the calls that build
    that content under the cursor, and leaves the builder as it was:
    cursor, stacks and the tracker with its bounds, destroyables and
    depth. *)
Theorem content_inside_an_open_element_is_hidden
    (children : list content) (b : Builder)
    (t : Tracker.SimpleBlockTracker) (rest : list Tracker.t) :
  blockStack b = Tracker.OfSimple t :: rest ->
  (0 < Tracker.nesting t)%Z ->
  constructing b = None -> operations b = None -> cursor_on_top b ->
  run (flat_map calls_of children) b
  = (Ok tt,
     set_env
       (extend (env b)
          (tree_calls_all (defaultOperations b) (element b) (nextSibling b)
             (fresh (env b)) children)
          (fresh (env b) + list_sum (map nodes_of children)))
       b).
Proof.
  intros Hb Ht Hc Ho Hcur.
  destruct (idle_builder b t rest Hb Hc Ho Hcur)
    as (w & e & ns & es & nss & d & ->).
  rewrite (run_children _ (fun c H => H) children) by
    (try exact Ht;
     apply Forall_forall; intros c _; apply nested_content_is_hidden).
  reflexivity.
Qed.

Lemma content_inside_an_open_element_is_hidden_witness :
  run (flat_map calls_of [Element "b" [("class", "x")] [Text "hi"]; Comment "c"])
    inside_div
  = (Ok tt,
     set_env
       (extend (env inside_div)
          [CreateElement "b" (Created 1) (Created 2);
           AddStaticAttribute SimpleElementOperations (Created 2) "class" "x";
           InsertBefore (Created 1) (Created 2) None;
           CreateTextNode "hi" (Created 3);
           InsertBefore (Created 2) (Created 3) None;
           CreateComment "c" (Created 4);
           InsertBefore (Created 1) (Created 4) None]
          5)
       inside_div).
Proof.
  apply (content_inside_an_open_element_is_hidden
           [Element "b" [("class", "x")] [Text "hi"]; Comment "c"] inside_div
           (Tracker.mkSimple Tracker.Simple 0 (Given 0)
              (Some (OfNode (Created 1))) (Some (OfNode (Created 1))) None 1)
           []).
  - reflexivity.
  - simpl. lia.
  - reflexivity.
  - reflexivity.
  - split; reflexivity.
Defined.

(** X13: an element with all that is nested in it counts as one node of
    the current block.  When the current block is a simple, remote or
    updatable tracker at a nesting depth of 0 or more, and the builder
    constructs no element and has its cursor on the top frame, appending an
    element with any well-nested children returns, makes on the tree exactly
    the calls that build the subtree in pre-order, restores the cursor and
    the stacks, and changes the tracker as one [newNode] of the element
    does: at depth 0 the element becomes [last] (and [first], if absent),
    whatever it contains. *)
Theorem element_subtree_counts_as_one_node
    (tag : string) (attributes : list (string * string))
    (children : list content) (b : Builder)
    (t : Tracker.SimpleBlockTracker) (rest : list Tracker.t) :
  blockStack b = Tracker.OfSimple t :: rest ->
  (0 <= Tracker.nesting t)%Z ->
  constructing b = None -> operations b = None -> cursor_on_top b ->
  let subtree := Element tag attributes children in
  run (calls_of subtree) b
  = (Ok tt,
     set_blockStack
       (Tracker.OfSimple
          (Tracker.simple_newNode (Created (fresh (env b))) t) :: rest)
       (set_env
          (extend (env b)
             (tree_calls (defaultOperations b) (element b) (nextSibling b)
                (fresh (env b)) subtree)
             (fresh (env b) + nodes_of subtree))
          b)).
Proof.
  intros Hb Ht Hc Ho Hcur. cbv zeta.
  destruct (idle_builder b t rest Hb Hc Ho Hcur)
    as (w & e & ns & es & nss & d & ->).
  rewrite (run_element _ (fun c H => H) tag attributes children) by
    (try exact Ht;
     apply Forall_forall; intros c _; apply nested_content_is_hidden).
  reflexivity.
Qed.

Lemma element_subtree_counts_as_one_node_witness :
  blockStack
    (snd (run (calls_of (Element "div" [] [Text "hi"; Element "b" [] []]))
            root))
  = [Tracker.OfSimple
       (Tracker.mkSimple Tracker.Simple 0 (Given 0)
          (Some (OfNode (Created 1))) (Some (OfNode (Created 1))) None 0)].
Proof.
  rewrite (element_subtree_counts_as_one_node "div" []
             [Text "hi"; Element "b" [] []] root
             (Tracker.create Tracker.Simple 0 (Given 0)) []
             eq_refl ltac:(simpl; lia) eq_refl eq_refl
             (conj eq_refl eq_refl)).
  reflexivity.
Defined.

(** ** What holds after every sequence of calls *)

Lemma steady_after_run (world : World) (parentNode : node)
    (sibling : option node) (ops : list operation) :
  let r := run ops (NewElementBuilder world parentNode sibling) in
  match fst r with
  | Ok _ => steady (log world) (snd r)
  | Err _ => faulted (log world) (snd r)
  end.
Proof.
  apply (steady_run (log world) ops), steady_constructor.
Qed.

Lemma faulted_after_run (world : World) (parentNode : node)
    (sibling : option node) (ops : list operation) :
  faulted (log world)
    (snd (run ops (NewElementBuilder world parentNode sibling))).
Proof.
  pose proof (steady_after_run world parentNode sibling ops) as H.
  cbv zeta in H.
  destruct (fst (run ops (NewElementBuilder world parentNode sibling)));
    [apply steady_faulted|]; exact H.
Qed.

(** X14: after every sequence of calls on a new builder that returned,
    both stacks are non-empty and the cursor (the parent element and the
    next sibling) is their top frame; when a call threw, the cursor is still
    the top frame unless both stacks are empty, which a pop past the base
    frame leaves behind. *)
Theorem cursor_is_the_top_frame
    (world : World) (parentNode : node) (sibling : option node)
    (ops : list operation) :
  let r := run ops (NewElementBuilder world parentNode sibling) in
  match fst r with
  | Ok _ =>
      exists es nss,
        elementStack (snd r) = element (snd r) :: es /\
        nextSiblingStack (snd r) = nextSibling (snd r) :: nss
  | Err _ => cursor_on_top (snd r) \/ frames_exhausted (snd r)
  end.
Proof.
  pose proof (steady_after_run world parentNode sibling ops) as H.
  cbv zeta in *.
  destruct (fst (run ops (NewElementBuilder world parentNode sibling))).
  - destruct H as ((H1 & H2) & _). unfold current in *.
    destruct (elementStack _) as [|e es]; [discriminate|].
    destruct (nextSiblingStack _) as [|n nss]; [discriminate|].
    injection H1 as ->. injection H2 as ->. now exists es, nss.
  - apply H.
Qed.

(** X15: after every sequence of calls on a new builder, whether the last
    call returned or threw, an element is under construction exactly when
    attribute operations are recorded for it; so an attribute setter called
    next returns exactly when an element is under construction. *)
Theorem setters_return_exactly_while_constructing
    (world : World) (parentNode : node) (sibling : option node)
    (ops : list operation) (name value : string) :
  let b := snd (run ops (NewElementBuilder world parentNode sibling)) in
  constructing_paired b /\
  fst (setStaticAttribute name value b)
  = match constructing b with
    | Some _ => Ok tt
    | None =>
        Err "setStaticAttribute should only be called while constructing an element"
    end.
Proof.
  cbv zeta.
  destruct (faulted_after_run world parentNode sibling ops)
    as (_ & _ & Hp & _).
  split; [exact Hp|].
  generalize dependent (snd (run ops (NewElementBuilder world parentNode sibling))).
  intros b [Hp1 Hp2].
  unfold setStaticAttribute, expectOperations, expectConstructing,
    only_while_constructing, call, bind, gets, modify, expect, ret, throw.
  simpl.
  destruct (operations b) as [o|] eqn:Eo; simpl.
  - destruct (constructing b) as [e|] eqn:Ec; simpl; [reflexivity|].
    discriminate (Hp1 eq_refl).
  - now rewrite (Hp2 eq_refl).
Qed.

Lemma steady_finalize (l0 : list event) (tr : Tracker.t) :
  keeps (steady l0) (faulted l0) (finalize tr).
Proof.
  unfold finalize. pose proof (steady_appendComment l0 "") as Hc. keep.
Qed.

(** X16: after every sequence of calls on a new builder, every tracker on
    the block stack has both bounds or neither, and so has the tracker that
    [popBlock] returns next. *)
Theorem trackers_have_both_bounds_or_neither
    (world : World) (parentNode : node) (sibling : option node)
    (ops : list operation) :
  let r := run ops (NewElementBuilder world parentNode sibling) in
  Forall both_or_neither (blockStack (snd r)) /\
  match fst r, fst (popBlock (snd r)) with
  | Ok _, Ok tr => both_or_neither tr
  | _, _ => True
  end.
Proof.
  cbv zeta.
  split; [apply (faulted_after_run world parentNode sibling ops)|].
  pose proof (steady_after_run world parentNode sibling ops) as H.
  cbv zeta in H.
  destruct (fst (run ops (NewElementBuilder world parentNode sibling)));
    [|trivial].
  set (b := snd (run ops (NewElementBuilder world parentNode sibling))) in *.
  unfold popBlock, bind.
  pose proof (steady_block (log world) b H) as H0.
  destruct (block b) as [[tr|msg] b0]; simpl in *; [|trivial].
  pose proof (steady_finalize (log world) tr b0 H0) as H1.
  destruct (finalize tr b0) as [[u|msg] b1]; simpl in *; [|trivial].
  destruct H1 as (_ & _ & _ & Ht & _).
  unfold current. destruct (blockStack b1) as [|x xs]; simpl; [trivial|].
  now inversion Ht.
Qed.

(** X17: the builder only builds.  Every sequence of calls on a new
    builder, whether it returned or threw, leaves the calls made before it
    in place and adds only calls that create or insert nodes or set
    attributes: it never has a node range cleared and never has a
    destroyable destroyed or handed to [didDestroy]. *)
Theorem builder_never_tears_down
    (world : World) (parentNode : node) (sibling : option node)
    (ops : list operation) :
  let b := snd (run ops (NewElementBuilder world parentNode sibling)) in
  log (env b) = log world ++ calls_since world (env b) /\
  Forall builds (calls_since world (env b)).
Proof.
  cbv zeta.
  destruct (faulted_after_run world parentNode sibling ops)
    as (_ & _ & _ & _ & (l & Hl & Hb)).
  rewrite (calls_since_app _ _ l Hl). split; assumption.
Qed.

(** ** Remote elements *)

(** X18: an empty remote element is a round trip for the cursor.  With
    the cursor on the top frame and an enclosing tracker [c] current,
    [pushRemoteElement] followed by [popRemoteElement] returns, has one
    empty comment created and inserted in the remote element before the
    given sibling, restores the cursor and both stacks, and leaves on the
    block stack the enclosing tracker with the remote tracker passed to its
    [newDestroyable]; the bounds of the enclosing tracker are as before. *)
Theorem empty_remote_element_round_trip
    (remote : node) (sibling : option node) (b : Builder)
    (c : Tracker.t) (rest : list Tracker.t) :
  blockStack b = c :: rest ->
  cursor_on_top b ->
  let k := fresh (env b) in
  (pushRemoteElement remote sibling ;;; popRemoteElement) b
  = (Ok tt,
     set_blockStack (Tracker.newDestroyable (DTracker k) c :: rest)
       (set_env
          (extend (env b)
             [CreateComment "" (Created (S k));
              InsertBefore remote (Created (S k)) sibling]
             (S (S k)))
          b)).
Proof.
  intros Hb (H1 & H2). cbv zeta.
  destruct b as [w e ns co o es nss bs d]. unfold current in *. simpl in *.
  subst bs. destruct es as [|e0 es]; [discriminate|].
  destruct nss as [|n0 nss]; [discriminate|].
  injection H1 as ->. injection H2 as ->.
  transitivity
    (@Ok unit tt,
     mkBuilder
       (extend
          (extend (mkWorld (log w) (S (fresh w)) (successor w))
             [CreateComment "" (Created (S (fresh w)))] (S (S (fresh w))))
          [InsertBefore remote (Created (S (fresh w))) sibling]
          (S (S (fresh w))))
       e ns co o (e :: es) (ns :: nss)
       (Tracker.newDestroyable (DTracker (fresh w)) c :: rest) d).
  - reflexivity.
  - rewrite extend_extend. reflexivity.
Qed.

Lemma empty_remote_element_round_trip_witness :
  (pushRemoteElement (Given 9) None ;;; popRemoteElement) inside_list
  = (Ok tt,
     set_env
       (extend (env inside_list)
          [CreateComment "" (Created 3); InsertBefore (Given 9) (Created 3) None]
          4)
       inside_list).
Proof.
  rewrite (empty_remote_element_round_trip (Given 9) None inside_list
             (Tracker.OfBlockList (Tracker.mkBlockList 1 (Given 0) [5; 6]))
             (tl (blockStack inside_list)) eq_refl (conj eq_refl eq_refl)).
  reflexivity.
Defined.

(** ** A block around an element *)

(** X19: a block that holds one element gets no marker and is bounded by
    the element.  With the cursor on the top frame, no element under
    construction and an enclosing tracker [c] current, opening a simple
    block, appending an element with any well-nested children and closing
    the block returns the new tracker with the element as both [first] and
    [last], no destroyables and depth 0; the calls made on the tree are
    exactly those that build the subtree, with no comment added; and the
    enclosing tracker has been passed the new tracker through
    [newDestroyable] and [newBounds]. *)
Theorem block_around_an_element_is_bounded_by_it
    (tag : string) (attributes : list (string * string))
    (children : list content) (b : Builder)
    (c : Tracker.t) (rest : list Tracker.t) :
  blockStack b = c :: rest ->
  constructing b = None -> operations b = None -> cursor_on_top b ->
  let k := fresh (env b) in
  let el := Created (S k) in
  let subtree := Element tag attributes children in
  (run (PushSimpleBlock :: calls_of subtree) ;;; popBlock) b
  = (Ok (Tracker.OfSimple
           (Tracker.mkSimple Tracker.Simple k (element b)
              (Some (OfNode el)) (Some (OfNode el)) None 0)),
     set_blockStack
       (Tracker.newBounds (BTracker k)
          (Tracker.newDestroyable (DTracker k) c) :: rest)
       (set_env
          (extend (env b)
             (tree_calls (defaultOperations b) (element b) (nextSibling b)
                (S k) subtree)
             (S k + nodes_of subtree))
          b)).
Proof.
  intros Hb Hc Ho (H1 & H2). cbv zeta.
  destruct b as [w e ns co o es nss bs d]. unfold current in *.
  cbn [blockStack constructing operations elementStack nextSiblingStack
       element nextSibling env defaultOperations] in *.
  subst. destruct es as [|e0 es]; [discriminate|].
  destruct nss as [|n0 nss]; [discriminate|].
  injection H1 as ->. injection H2 as ->.
  unfold bind at 1. rewrite run_cons.
  change (perform PushSimpleBlock
            (mkBuilder w e ns None None (e :: es) (ns :: nss) (c :: rest) d))
    with (Ok tt,
          idle (mkWorld (log w) (S (fresh w)) (successor w)) e ns es nss
            (Tracker.create Tracker.Simple (fresh w) e)
            (Tracker.newBounds (BTracker (fresh w))
               (Tracker.newDestroyable (DTracker (fresh w)) c) :: rest) d).
  cbv iota.
  rewrite (run_element _ (fun c H => H) tag attributes children) by
    (try (simpl; lia);
     apply Forall_forall; intros x _; apply nested_content_is_hidden).
  reflexivity.
Qed.

Lemma block_around_an_element_is_bounded_by_it_witness :
  fst ((run (PushSimpleBlock :: calls_of (Element "div" [] [Text "hi"]))
          ;;; popBlock) root)
  = Ok (Tracker.OfSimple
          (Tracker.mkSimple Tracker.Simple 1 (Given 0)
             (Some (OfNode (Created 2))) (Some (OfNode (Created 2))) None 0)).
Proof.
  rewrite (block_around_an_element_is_bounded_by_it "div" [] [Text "hi"] root
             (Tracker.OfSimple (Tracker.create Tracker.Simple 0 (Given 0))) []
             eq_refl eq_refl eq_refl (conj eq_refl eq_refl)).
  reflexivity.
Defined.
